(** * gogw: the request-dispatch pipeline of the gateway

    A shallow embedding of the Go sources of [github.com/seansitter/gogw]:
    - package [httperr]  (httperr/httperr.go),
    - package [config]   (the [Endpoint] record and its validation, the
                          defaults of the [Config] and [Parse]),
    - package [auth]     ([splitToken], [JWTAuthenticator.Authenticate],
                          [newJWTAuthHandler], the pooled authenticator),
    - package [gateway]  ([StageHandler], [CbTransport.RoundTrip],
                          [configureRoutes], [Build], [Dispatch]).

    Go strings are byte strings ([string]); Go [int] values that occur here
    (HTTP status codes) are [Z]; Go maps are [gmap]; a nil map or nil pointer
    is [None].  Calls into libraries that are not part of the repository
    ([jwt.Parse], [url.Parse], [yaml.Unmarshal],
    [httputil.ReverseProxy.ServeHTTP], the underlying [http.Transport]) are
    kept abstract: they are either section
    variables or nodes/events that the model records without interpreting. *)

From Stdlib Require Import ZArith Ascii.
From stdpp Require Import base option list gmap strings numbers.

(** ** Go's [strings] and [fmt] helpers used by the sources *)

Module GoStrings.

(** [cut sep s]: the text before and after the first occurrence of the
    byte [sep] in [s], or [None] when [sep] does not occur. *)
Fixpoint cut (sep : ascii) (s : string) : option (string * string) :=
  match s with
  | EmptyString => None
  | String c s' =>
      if Ascii.eqb c sep then Some (EmptyString, s')
      else match cut sep s' with
           | Some (a, b) => Some (String c a, b)
           | None => None
           end
  end.

(** [strings.Split(s, sep)] for a one-byte separator: always at least one
    element ([Split("", "/")] is [[""]]). *)
Fixpoint Split (sep : ascii) (s : string) : list string :=
  match s with
  | EmptyString => [EmptyString]
  | String c s' =>
      if Ascii.eqb c sep then EmptyString :: Split sep s'
      else match Split sep s' with
           | h :: t => String c h :: t
           | [] => [String c EmptyString]
           end
  end.

(** [strings.SplitN(s, sep, n)] for a one-byte separator and [n >= 0]:
    at most [n] substrings, the last one being the unsplit remainder. *)
Fixpoint SplitN (sep : ascii) (n : nat) (s : string) : list string :=
  match n with
  | O => []
  | S O => [s]
  | S n' =>
      match cut sep s with
      | Some (a, b) => a :: SplitN sep n' b
      | None => [s]
      end
  end.

(** [strings.IndexByte(s, c) >= 0]: does the byte [c] occur in [s]? *)
Fixpoint hasByte (c : ascii) (s : string) : bool :=
  match s with
  | EmptyString => false
  | String c' s' => Ascii.eqb c' c || hasByte c s'
  end.

(** [strings.ToLower] on the ASCII range: [A]..[Z] go to [a]..[z].  Bytes
    outside that range are kept; Go maps some non-ASCII runes as well, but
    never to one of the letters of ["bearer"], the only string the sources
    compare a lowered string with. *)
Definition lower_byte (c : ascii) : ascii :=
  let n := nat_of_ascii c in
  if (65 <=? n)%nat && (n <=? 90)%nat then ascii_of_nat (n + 32) else c.

Fixpoint ToLower (s : string) : string :=
  match s with
  | EmptyString => EmptyString
  | String c s' => String (lower_byte c) (ToLower s')
  end.

(** Decimal digits of a natural number, most significant first; [fuel]
    bounds the number of digits. *)
Fixpoint digits (fuel : nat) (n : N) (acc : string) : string :=
  match fuel with
  | O => acc
  | S f =>
      let d := ascii_of_N (48 + N.modulo n 10) in
      let q := N.div n 10 in
      if N.eqb q 0 then String d acc else digits f q (String d acc)
  end.

(** [%v] formatting of an [int]. *)
Definition itoa (z : Z) : string :=
  match z with
  | Z0 => "0"
  | Zpos p => digits (S (Pos.to_nat (Pos.size p))) (Npos p) ""
  | Zneg p => String "-" (digits (S (Pos.to_nat (Pos.size p))) (Npos p) "")
  end.

End GoStrings.

(** ** Package [httperr] *)

Module httperr.

Record Error := { Code : Z; Message : string }.

Definition UnAuthorized : Error := {| Code := 401; Message := "unauthorized" |}.
Definition Forbidden : Error := {| Code := 403; Message := "forbidden" |}.
Definition NotFound : Error := {| Code := 404; Message := "not found" |}.
Definition TooBusy : Error := {| Code := 503; Message := "overloaded" |}.

End httperr.

(** ** Package [config]: endpoints *)

Module config.

Record Endpoint := {
    Name : string;
    Key : string;
    URL : string;
    Authenticate : bool;
    SharedTransport : string
  }.

(** [func (ep *Endpoint) Copy() *Endpoint] *)
Definition Copy (ep : Endpoint) : Endpoint :=
  {| Name := Name ep; Key := Key ep; URL := URL ep;
     Authenticate := Authenticate ep; SharedTransport := SharedTransport ep |}.

(** [func (ep *Endpoint) valid() (bool, error)] *)
Definition valid (ep : Endpoint) : bool * option string :=
  if String.eqb (Name ep) "" then (false, Some "missing name for endpoint")
  else if String.eqb (Key ep) "" then
    (false, Some ("missing key for endpoint: " +:+ Name ep))
  else if String.eqb (URL ep) "" then
    (false, Some ("missing url for endpoint: " +:+ Name ep))
  else (true, None).

(** The loop of [validateEndpoints], with the two sets it threads. *)
Fixpoint validateLoop (eps : list Endpoint) (epNameSet epKeySet : gset string)
  : bool * option string :=
  match eps with
  | [] => (true, None)
  | ep :: rest =>
      if decide (Name ep ∈ epNameSet) then
        (false, Some ("endpoint name: '" +:+ Name ep +:+ "' is not unique"))
      else if decide (Key ep ∈ epKeySet) then
        (false, Some ("endpoint key: '" +:+ Key ep +:+ "' is not unique"))
      else if negb (String.eqb (SharedTransport ep) "")
              && String.eqb (SharedTransport ep) (Name ep) then
        (false, Some ("endpoint name: '" +:+ Name ep
                      +:+ "' cannot share a transport with itself"))
      else match valid ep with
           | (false, err) => (false, err)
           | (true, _) =>
               validateLoop rest ({[Name ep]} ∪ epNameSet) ({[Key ep]} ∪ epKeySet)
           end
  end.

(** [func (config *Config) validateEndpoints() (bool, error)] *)
Definition validateEndpoints (eps : list Endpoint) : bool * option string :=
  validateLoop eps ∅ ∅.

(** [type Proxy struct], the outbound connection manager's tuning values. *)
Record Proxy := {
  MaxIdleConns : Z;
  MaxIdleConnsPerHost : Z;
  IdleConnTimeoutMs : Z;
  TLSHandshakeTimeoutMs : Z;
  ExpectContinueTimeoutMs : Z;
  DialTimeoutMs : Z;
  DialKeepAliveMs : Z;
  ResponseHeaderTimeoutMs : Z
}.

(** [type CircuitBreaker struct] *)
Record CircuitBreaker := {
  MaxHalfOpenRequests : Z;
  ClearFailureCountIntervalMs : Z;
  HalfOpenAfterMs : Z;
  FailuresToOpen : Z
}.

End config.

(** ** The parts of [net/http] the sources touch *)

Module http.

(** [*http.Request]: the URL path and the header map.  A header that is
    absent reads as the nil slice ([None]). *)
Record Request := {
    Path : string;
    Header : gmap string (list string)
  }.

(** [*http.Response], as far as the sources look at it. *)
Record Response := {
    StatusCode : Z;
    Body : string
  }.

(** The status codes [ResponseWriter.WriteHeader] accepts: the writers of
    net/http panic on a code outside 100..999 that is to become the status
    line. *)
Definition validStatus (code : Z) : bool :=
  (100 <=? code)%Z && (code <=? 999)%Z.

End http.

(** A Go call either returns or panics. *)
Inductive Res (A : Type) :=
| Ok (a : A)
| Panic (msg : string).
Arguments Ok {A} a.
Arguments Panic {A} msg.

(** ** Package [auth] *)

Module auth.

(** [type AuthError struct { msg string }] *)
Record AuthError := { msg : string }.

(** [func (err AuthError) Error() string] *)
Definition Error (err : AuthError) : string := msg err.

(** [type AuthHandler func(r *http.Request) (bool, *httperr.Error)] *)
Definition AuthHandler : Type :=
  http.Request -> Res (bool * option httperr.Error).

(** [func splitToken(token string) (string, error)] *)
Definition splitToken (token : string) : string * option string :=
  match GoStrings.SplitN " " 2 token with
  | [p0; p1] =>
      if String.eqb (GoStrings.ToLower p0) "bearer" then (p1, None)
      else ("", Some "not a bearer token")
  | _ => (token, None)
  end.

Section Verifier.
(** [*jwt.Token] and the configured public key. *)
Context {Token Key : Type}.

(** [type AuthResult struct { Success bool; Artifact interface{} }] *)
Record AuthResult := { Success : bool; Artifact : option Token }.

(** [type AuthReturn struct { AuthResult *AuthResult; AuthError error }] *)
Definition AuthReturn : Type := AuthResult * option AuthError.

(** A computation that may call [jwt.Parse(token, keyFunc)], where
    [keyFunc] returns [key]: either it is finished, or it asks the
    library to verify [token] and goes on with the parsed token and the
    error that the library answers (either may be nil). *)
Inductive Verif (A : Type) :=
  | Ret (a : A)
  | JwtParse (token : string) (key : Key)
             (k : option Token * option string -> Verif A).
Arguments Ret {A} a.
Arguments JwtParse {A} token key k.

(** The tokens a computation hands to [jwt.Parse], given the library. *)
Fixpoint verified {A} (jwtParse : string -> Key -> option Token * option string)
    (v : Verif A) : list string :=
  match v with
  | Ret _ => []
  | JwtParse token key k => token :: verified jwtParse (k (jwtParse token key))
  end.

(** Running a computation against the library. *)
Fixpoint run {A} (jwtParse : string -> Key -> option Token * option string)
    (v : Verif A) : A :=
  match v with
  | Ret a => a
  | JwtParse token key k => run jwtParse (k (jwtParse token key))
  end.

(** [type JWTAuthenticator struct { key interface{} }] *)
Record JWTAuthenticator := { key : Key }.

(** [func NewJWTAuthenticator(key interface{}) ( *JWTAuthenticator, error)] *)
Definition NewJWTAuthenticator (k : Key) : JWTAuthenticator * option string :=
  ({| key := k |}, None).

(** [func (authenticator *JWTAuthenticator) Authenticate(creds interface{})
     ( *AuthResult, error)] *)
Definition Authenticate (authenticator : JWTAuthenticator) (creds : string)
  : Verif AuthReturn :=
  match splitToken creds with
  | (_, Some err) =>
      Ret ({| Success := false; Artifact := None |}, Some {| msg := err |})
  | (token, None) =>
      JwtParse token (key authenticator) (fun answer =>
        match answer with
        | (_, Some err) =>
            Ret ({| Success := false; Artifact := None |}, Some {| msg := err |})
        | (None, None) =>
            Ret ({| Success := false; Artifact := None |},
                 Some {| msg := "authentication failed with a nil parsed token" |})
        | (Some parsedToken, None) =>
            Ret ({| Success := true; Artifact := Some parsedToken |}, None)
        end)
  end.

(** [type Authenticator interface { Authenticate(creds) ( *AuthResult, error) }],
    once the [jwt] library is fixed. *)
Class Authenticator (T : Type) := authenticate : T -> string -> AuthReturn.

Section WithLibrary.
Variable jwtParse : string -> Key -> option Token * option string.

#[export] Instance JWTAuthenticator_Authenticator : Authenticator JWTAuthenticator :=
  fun authenticator creds => run jwtParse (Authenticate authenticator creds).

(** The closure [authHandlerFunc] returned by [newJWTAuthHandler]. *)
Definition newJWTAuthHandler {T} `{Authenticator T} (authenticator : T)
  : AuthHandler :=
  fun r =>
    match http.Header r !! "Authorization" with
    | None => Ok (false, Some httperr.UnAuthorized)
    | Some authHeader =>
        match authHeader with
        | [] => Panic "index out of range [0] with length 0"
        | bearerToken :: _ =>
            let '(result, err) := authenticate authenticator bearerToken in
            if negb (Success result) || bool_decide (is_Some err)
            then Ok (false, None)
            else Ok (true, None)
        end
    end.

(** [func NewJWTAuthHandler(key interface{}) (AuthHandler, error)] *)
Definition NewJWTAuthHandler (k : Key) : AuthHandler :=
  newJWTAuthHandler (fst (NewJWTAuthenticator k)).
End WithLibrary.
End Verifier.

Arguments AuthResult : clear implicits.
Arguments AuthReturn : clear implicits.
Arguments Verif : clear implicits.
Arguments JWTAuthenticator : clear implicits.
Arguments Ret {Token Key A} a.
Arguments JwtParse {Token Key A} token key k.

(** *** The pooled authenticator

    [NewPooledJWTAuthenticator] starts [numWorkers] goroutines that share
    the registration channel [workerPool] (buffered, capacity [numWorkers]);
    every call of [PooledJWTAuthenticator.Authenticate] runs on the
    goroutine of its caller.  The goroutines are modelled by the program
    point each one is at, the channels by their contents, and one step of
    the system is one channel operation or one call of the verifier by one
    goroutine.  Workers and callers are numbered; a worker's [inJobChannel]
    is named by the worker's number and a job's private [RespChan] by the
    number of the call that made it. *)

Section Pool.
Context {Token : Type}.
(** [w.authenticator.Authenticate(job.Payload)], with the library fixed. *)
Variable verify : string -> AuthReturn Token.

(** Where a worker is in the loop of [Worker.Start].  Nothing ever sends on
    [quitChan], so the second case of the [select] is never taken. *)
Inductive WorkerAt :=
| WRegister
    (* at [w.workerRegPool <- w.inJobChannel] *)
| WSelect
    (* at [select { case job := <-w.inJobChannel: ...] *)
| WAuthenticate (c : nat) (payload : string)
    (* holds the job of call [c]; at [w.authenticator.Authenticate(job.Payload)] *)
| WRespond (c : nat) (ret : AuthReturn Token)
    (* at [job.RespChan <- AuthReturn{res, err}] *).

(** Where a call of [PooledJWTAuthenticator.Authenticate(token)] is. *)
Inductive CallerAt :=
| CAcquire (token : string)
    (* at [inJobChan := <-authenticator.workerPool] *)
| CSubmit (token : string) (i : nat)
    (* holds the channel of worker [i]; at [inJobChan <- Job{token, authRetChan}] *)
| CAwait
    (* at [authRet := <-authRetChan] *)
| CDone (ret : AuthReturn Token)
    (* has closed [authRetChan] and returned [ret] *).

(** The pool and its callers.  [verifications] is a history: the calls whose
    job some worker has passed to the verifier, in order. *)
Record PoolState := {
  workerPool : list nat;
  capacity : nat;
  workers : list WorkerAt;
  callers : list CallerAt;
  verifications : list nat
}.

(** The result of [NewPooledJWTAuthenticator(numWorkers, key)], together
    with one call of [Authenticate] for each of the [tokens], all started
    and none yet past its first statement. *)
Definition NewPooledJWTAuthenticator (numWorkers : nat) (tokens : list string)
  : PoolState :=
  {| workerPool := [];
     capacity := numWorkers;
     workers := replicate numWorkers WRegister;
     callers := CAcquire <$> tokens;
     verifications := [] |}.

(** The steps: which goroutine moves. *)
Inductive Action :=
| Register (i : nat)
| Acquire (c : nat)
| Handoff (c : nat)
| Verify (i : nat)
| Respond (i : nat).

(** One step.  A send on the buffered [workerPool] needs room, a receive
    from it takes the oldest element; [inJobChannel] and [RespChan] are
    unbuffered, so a send and the matching receive happen together. *)
Definition fire (a : Action) (s : PoolState) : option PoolState :=
  match a with
  | Register i =>
      match workers s !! i with
      | Some WRegister =>
          if decide (length (workerPool s) < capacity s)%nat
          then Some {| workerPool := workerPool s ++ [i];
                       capacity := capacity s;
                       workers := <[i := WSelect]> (workers s);
                       callers := callers s;
                       verifications := verifications s |}
          else None
      | _ => None
      end
  | Acquire c =>
      match callers s !! c, workerPool s with
      | Some (CAcquire token), i :: rest =>
          Some {| workerPool := rest;
                  capacity := capacity s;
                  workers := workers s;
                  callers := <[c := CSubmit token i]> (callers s);
                  verifications := verifications s |}
      | _, _ => None
      end
  | Handoff c =>
      match callers s !! c with
      | Some (CSubmit token i) =>
          match workers s !! i with
          | Some WSelect =>
              Some {| workerPool := workerPool s;
                      capacity := capacity s;
                      workers := <[i := WAuthenticate c token]> (workers s);
                      callers := <[c := CAwait]> (callers s);
                      verifications := verifications s |}
          | _ => None
          end
      | _ => None
      end
  | Verify i =>
      match workers s !! i with
      | Some (WAuthenticate c payload) =>
          Some {| workerPool := workerPool s;
                  capacity := capacity s;
                  workers := <[i := WRespond c (verify payload)]> (workers s);
                  callers := callers s;
                  verifications := verifications s ++ [c] |}
      | _ => None
      end
  | Respond i =>
      match workers s !! i with
      | Some (WRespond c ret) =>
          match callers s !! c with
          | Some CAwait =>
              Some {| workerPool := workerPool s;
                      capacity := capacity s;
                      workers := <[i := WRegister]> (workers s);
                      callers := <[c := CDone ret]> (callers s);
                      verifications := verifications s |}
          | _ => None
          end
      | _ => None
      end
  end.

Definition step (s s' : PoolState) : Prop := exists a, fire a s = Some s'.

(** A schedule: the steps taken, in order. *)
Fixpoint runSchedule (sched : list Action) (s : PoolState) : option PoolState :=
  match sched with
  | [] => Some s
  | a :: rest =>
      match fire a s with
      | Some s' => runSchedule rest s'
      | None => None
      end
  end.

(** The worker holds the job of call [c]. *)
Definition holds (w : WorkerAt) (c : nat) : Prop :=
  match w with
  | WAuthenticate c' _ => c' = c
  | WRespond c' _ => c' = c
  | _ => False
  end.

(** The worker is inside the verifier. *)
Definition verifying (w : WorkerAt) : bool :=
  match w with
  | WAuthenticate _ _ => true
  | _ => false
  end.

(** The number of verifications in flight. *)
Definition inFlight (s : PoolState) : nat :=
  length (filter (fun w => verifying w = true) (workers s)).

Definition returned (c : CallerAt) : bool :=
  match c with
  | CDone _ => true
  | _ => false
  end.

(** Steps a goroutine at this point still accounts for. *)
Definition workerWeight (w : WorkerAt) : nat :=
  match w with
  | WRegister => 1
  | WSelect => 0
  | WAuthenticate _ _ => 3
  | WRespond _ _ => 2
  end.

Definition callerWeight (c : CallerAt) : nat :=
  match c with
  | CAcquire _ => 5
  | CSubmit _ _ => 4
  | CAwait => 0
  | CDone _ => 0
  end.

(** A bound on the number of steps the system can still take. *)
Definition stepsLeft (s : PoolState) : nat :=
  sum_list_with workerWeight (workers s) + sum_list_with callerWeight (callers s).

(** What holds in every state the pool can reach from
    [NewPooledJWTAuthenticator numWorkers tokens]. *)
Record Consistent (numWorkers : nat) (tokens : list string) (s : PoolState)
  : Prop := {
  inv_capacity : capacity s = numWorkers;
  inv_workers : length (workers s) = numWorkers;
  inv_callers : length (callers s) = length tokens;
  (* the registration queue holds distinct workers, all waiting for a job *)
  inv_pool_nodup : NoDup (workerPool s);
  inv_pool_select : forall i, i ∈ workerPool s -> workers s !! i = Some WSelect;
  (* a channel taken from the queue belongs to a waiting worker, is no
     longer queued, and is held by one call only *)
  inv_submit : forall c token i,
    callers s !! c = Some (CSubmit token i) ->
    workers s !! i = Some WSelect /\ i ∉ workerPool s;
  inv_submit_inj : forall c c' token token' i,
    callers s !! c = Some (CSubmit token i) ->
    callers s !! c' = Some (CSubmit token' i) -> c = c';
  (* a waiting worker is queued or its channel is held by a call *)
  inv_select : forall i,
    workers s !! i = Some WSelect ->
    i ∈ workerPool s \/ exists c token, callers s !! c = Some (CSubmit token i);
  (* a job is with one worker, and its call waits for the answer *)
  inv_holds : forall i w c,
    workers s !! i = Some w -> holds w c -> callers s !! c = Some CAwait;
  inv_holds_inj : forall i i' w w' c,
    workers s !! i = Some w -> workers s !! i' = Some w' ->
    holds w c -> holds w' c -> i = i';
  inv_await : forall c,
    callers s !! c = Some CAwait ->
    exists i w, workers s !! i = Some w /\ holds w c;
  (* payloads and answers belong to the call they are attributed to *)
  inv_payload : forall i c payload,
    workers s !! i = Some (WAuthenticate c payload) -> tokens !! c = Some payload;
  inv_result : forall i c ret,
    workers s !! i = Some (WRespond c ret) ->
    exists token, tokens !! c = Some token /\ ret = verify token;
  inv_acquire : forall c token,
    callers s !! c = Some (CAcquire token) -> tokens !! c = Some token;
  inv_submit_token : forall c token i,
    callers s !! c = Some (CSubmit token i) -> tokens !! c = Some token;
  inv_done : forall c ret,
    callers s !! c = Some (CDone ret) ->
    exists token, tokens !! c = Some token /\ ret = verify token;
  (* a job is passed to the verifier once *)
  inv_log_nodup : NoDup (verifications s);
  inv_log : forall c,
    c ∈ verifications s <->
    (exists ret, callers s !! c = Some (CDone ret))
    \/ (exists i ret, workers s !! i = Some (WRespond c ret))
}.

End Pool.

End auth.


(** ** The [time] package: durations are signed 64-bit nanosecond counts *)

Module time.

Definition wrap64 (z : Z) : Z := (z + 2 ^ 63) mod 2 ^ 64 - 2 ^ 63.

Definition Millisecond : Z := 1000000.

(** [d * time.Millisecond] on [time.Duration] (an [int64]). *)
Definition ms (d : Z) : Z := wrap64 (d * Millisecond).

End time.

(** ** The circuit breaker the transport is tied to *)

Module gobreaker.

(** [gobreaker.Settings], with the fields [newCircuitBreaker] fills in; the
    [OnStateChange] callback only logs. *)
Record Settings := {
  Name : string;
  MaxRequests : Z;
  Interval : Z;
  Timeout : Z
}.

Inductive State := StateClosed | StateHalfOpen | StateOpen.

(** Modelled from the spec: the breaker of github.com/sony/gobreaker is not
    part of the repository.  Per Transport Handle the spec keeps one of
    Closed, Open, HalfOpen and a failure counter. *)
Record CircuitBreaker := {
  settings : Settings;
  state : State;
  failures : nat
}.

(** Modelled from the spec: a new breaker is Closed with no failures. *)
Definition NewCircuitBreaker (st : Settings) : CircuitBreaker :=
  {| settings := st; state := StateClosed; failures := 0 |}.

(** The error a rejected call gets instead of a result. *)
Definition ErrOpenState : string := "circuit breaker is open".

Section Execute.
Context {A : Type}.
(** The spec's [failuresToOpen].  [newCircuitBreaker] passes no trip rule in
    its settings, so the threshold is an argument of the model. *)
Variable failuresToOpen : nat.

(** Modelled from the spec: [Execute] of the breaker, for one call that runs
    to completion.  Closed: the call passes through; an error increments the
    failure counter, any other outcome leaves it, and reaching
    [failuresToOpen] opens the breaker.  Open: the call is rejected at once
    and [req] is not run.  HalfOpen: the call is a trial call; success closes
    the breaker and resets the counter, failure reopens it. *)
Definition Execute (cb : CircuitBreaker) (req : unit -> option A * option string)
  : (option A * option string) * CircuitBreaker :=
  match state cb with
  | StateOpen => ((None, Some ErrOpenState), cb)
  | StateClosed =>
      match req tt with
      | (result, None) => ((result, None), cb)
      | (result, Some err) =>
          let n := S (failures cb) in
          ((result, Some err),
           {| settings := settings cb;
              state := if (failuresToOpen <=? n)%nat then StateOpen else StateClosed;
              failures := n |})
      end
  | StateHalfOpen =>
      match req tt with
      | (result, None) =>
          ((result, None),
           {| settings := settings cb; state := StateClosed; failures := 0 |})
      | (result, Some err) =>
          ((result, Some err),
           {| settings := settings cb; state := StateOpen; failures := failures cb |})
      end
  end.
End Execute.

(** Modelled from the spec: once [halfOpenAfterMs] has elapsed since the
    breaker opened, it becomes HalfOpen. *)
Definition afterTimeout (cb : CircuitBreaker) : CircuitBreaker :=
  match state cb with
  | StateOpen => {| settings := settings cb; state := StateHalfOpen; failures := failures cb |}
  | _ => cb
  end.

(** Modelled from the spec: on every [clearFailureCountIntervalMs] the
    failure count of a Closed breaker is reset to zero. *)
Definition afterInterval (cb : CircuitBreaker) : CircuitBreaker :=
  match state cb with
  | StateClosed => {| settings := settings cb; state := StateClosed; failures := 0 |}
  | _ => cb
  end.

End gobreaker.

(** ** Package [gateway] *)

Module gateway.

(** [http.Transport] as [newTransport] configures it. *)
Record Transport := {
  DialTimeout : Z;
  DialKeepAlive : Z;
  MaxIdleConns : Z;
  IdleConnTimeout : Z;
  TLSHandshakeTimeout : Z;
  ExpectContinueTimeout : Z
}.

(** [type CbTransport struct]: a transport tied to a circuit breaker; a nil
    breaker is [None]. *)
Record CbTransport := {
  cbtTransport : Transport;
  cbtCircuitBreaker : option gobreaker.CircuitBreaker
}.

(** [func newCircuitBreaker(name string, cbConfig *config.CircuitBreaker)] *)
Definition newCircuitBreaker (name : string) (cbConfig : option config.CircuitBreaker)
  : option gobreaker.CircuitBreaker :=
  match cbConfig with
  | None => None
  | Some c =>
      let cbSettings :=
        {| gobreaker.Interval := time.ms (config.ClearFailureCountIntervalMs c);
           gobreaker.MaxRequests := config.MaxHalfOpenRequests c;
           gobreaker.Name := "crctbrkr-" +:+ name;
           gobreaker.Timeout := time.ms (config.HalfOpenAfterMs c) |} in
      Some (gobreaker.NewCircuitBreaker cbSettings)
  end.

(** [func newTransport(proxyConfig config.Proxy) http.RoundTripper] *)
Definition newTransport (proxyConfig : config.Proxy) : Transport :=
  {| DialTimeout := time.ms (config.DialTimeoutMs proxyConfig);
     DialKeepAlive := time.ms (config.DialKeepAliveMs proxyConfig);
     MaxIdleConns := config.MaxIdleConns proxyConfig;
     IdleConnTimeout := time.ms (config.IdleConnTimeoutMs proxyConfig);
     TLSHandshakeTimeout := time.ms (config.TLSHandshakeTimeoutMs proxyConfig);
     ExpectContinueTimeout := time.ms (config.ExpectContinueTimeoutMs proxyConfig) |}.

(** [func newCbTransport(name, proxyConfig, cbConfig) http.RoundTripper] *)
Definition newCbTransport (name : string) (proxyConfig : config.Proxy)
    (cbConfig : option config.CircuitBreaker) : CbTransport :=
  {| cbtTransport := newTransport proxyConfig;
     cbtCircuitBreaker := newCircuitBreaker name cbConfig |}.

Section RoundTrip.
(** The outcome of [transport.Transport.RoundTrip(request)] on the pooled
    client: the response and the error, either of which may be nil. *)
Variable send : http.Request -> option http.Response * option string.
Variable failuresToOpen : nat.

(** The closure [RoundTrip] hands to the breaker. *)
Definition guarded (request : http.Request) (_ : unit)
  : option http.Response * option string :=
  let '(r, e) := send request in
  match r with
  | Some resp =>
      if (500 <=? http.StatusCode resp)%Z && (http.StatusCode resp <? 600)%Z
      then (None, Some "500 error for service endpoint")
      else (r, e)
  | None => (r, e)
  end.

(** [func (transport *CbTransport) RoundTrip(request *http.Request)
     ( *http.Response, error)]: the pair returned and the transport object
    after the call. *)
Definition RoundTrip (transport : CbTransport) (request : http.Request)
  : (option http.Response * option string) * CbTransport :=
  match cbtCircuitBreaker transport with
  | None => (send request, transport)
  | Some cb =>
      let '(res, cb') := gobreaker.Execute failuresToOpen cb (guarded request) in
      (res, {| cbtTransport := cbtTransport transport;
               cbtCircuitBreaker := Some cb' |})
  end.

(** The status is in 500..599. *)
Definition is5xx (resp : http.Response) : bool :=
  (500 <=? http.StatusCode resp)%Z && (http.StatusCode resp <? 600)%Z.

(** The outbound call ended in a network-level error or in a 5xx response. *)
Definition failedCall (out : option http.Response * option string) : bool :=
  match out with
  | (Some resp, e) => is5xx resp || bool_decide (is_Some e)
  | (None, e) => bool_decide (is_Some e)
  end.
End RoundTrip.

Section Dispatcher.
(** [*url.URL] and [url.Parse]; [inl] carries the library's error text. *)
Context {URL : Type}.
Variable urlParse : string -> string + URL.

(** A pointer to a [CbTransport]: its index in the heap of transports
    allocated so far. *)
Definition loc : Type := nat.
Definition Heap : Type := list CbTransport.

Definition alloc (h : Heap) (t : CbTransport) : loc * Heap :=
  (length h, h ++ [t]).

(** [*httputil.ReverseProxy] as [newProxyStageHandler] sets it up: the
    target of [NewSingleHostReverseProxy] and the [Transport] field, which
    holds what the map read [d.transports[transName]] gave. *)
Record ReverseProxy := {
  Target : URL;
  rpTransport : option loc
}.

(** What a stage does that can be seen from outside, in call order: the
    call of the auth handler, the calls on the [http.ResponseWriter], and
    [ServeHTTP] of the route's reverse proxy, the one way a handler reaches
    a backend. *)
Inductive Event :=
| EvAuthHandler (r : http.Request)
| EvWriteHeader (code : Z)
| EvWrite (body : string)
| EvServeHTTP (routeProxy : ReverseProxy) (r : http.Request).

(** [type ExecHandler func(http.ResponseWriter, *http.Request) bool]: the
    two function literals of the package, each with what it captures.  The
    auth stage reads [d.authHandler] through the dispatcher it captures;
    the builder sets that field before [Build] and nothing changes it
    afterwards, so the closure carries the handler itself. *)
Inductive ExecHandler :=
| ProxyExec (routeProxy : ReverseProxy)
| AuthExec (authHandler : auth.AuthHandler).

(** [type StageHandler struct { ExecHandler ExecHandler; Next *StageHandler }] *)
#[warnings="-register-all"]
Inductive StageHandler :=
| Stage (exec : ExecHandler) (next : option StageHandler).

Definition StageExecHandler (sh : StageHandler) : ExecHandler :=
  match sh with Stage exec _ => exec end.

Definition Next (sh : StageHandler) : option StageHandler :=
  match sh with Stage _ next => next end.

(** Calling an [ExecHandler] on the writer [w] (the calls made on it so far)
    and the request [r].  The calls on the writer and on the reverse proxy
    are recorded in the order the closure makes them; what happens inside
    them is the library's: [WriteHeader] returns for a code that is a
    [http.validStatus] and [Write] returns; a panic raised inside
    [WriteHeader] on another code, or inside [ServeHTTP], is not part of the
    record. *)
Definition call (h : ExecHandler) (w : list Event) (r : http.Request)
  : Res bool * list Event :=
  match h with
  | ProxyExec routeProxy =>
      (Ok false, w ++ [EvServeHTTP routeProxy r])
  | AuthExec authHandler =>
      let w := w ++ [EvAuthHandler r] in
      match authHandler r with
      | Panic m => (Panic m, w)
      | Ok (true, _) => (Ok true, w)
      | Ok (false, Some httpErr) =>
          let w := if Z.eqb (httperr.Code httpErr) 0 then w
                   else w ++ [EvWriteHeader (httperr.Code httpErr)] in
          let w := if String.eqb (httperr.Message httpErr) "" then w
                   else w ++ [EvWrite (httperr.Message httpErr)] in
          (Ok false, w)
      | Ok (false, None) =>
          (Ok false, w ++ [EvWriteHeader 403; EvWrite "forbidden"])
      end
  end.

(** [func (h *StageHandler) Execute(w, r)] *)
Fixpoint Execute (h : StageHandler) (w : list Event) (r : http.Request)
  : Res unit * list Event :=
  match h with
  | Stage exec next =>
      match call exec w r with
      | (Panic m, w') => (Panic m, w')
      | (Ok true, w') =>
          match next with
          | Some n => Execute n w' r
          | None => (Ok tt, w')
          end
      | (Ok false, w') => (Ok tt, w')
      end
  end.

(** [type Route struct { Endpoint *config.Endpoint; StageHandler *StageHandler }] *)
Record Route := {
  Endpoint : config.Endpoint;
  RouteStageHandler : StageHandler
}.

(** [type Dispatcher struct].  [routes] is nil ([None]) until
    [configureRoutes] assigns it; [transports] is the map [Build] makes
    before it compiles the routes. *)
Record Dispatcher := {
  routes : option (gmap string Route);
  authHandler : option auth.AuthHandler;
  proxyConfig : config.Proxy;
  cbConfig : option config.CircuitBreaker;
  transports : gmap string loc
}.

Definition setTransports (d : Dispatcher) (t : gmap string loc) : Dispatcher :=
  {| routes := routes d; authHandler := authHandler d;
     proxyConfig := proxyConfig d; cbConfig := cbConfig d; transports := t |}.

Definition setRoutes (d : Dispatcher) (rs : gmap string Route) : Dispatcher :=
  {| routes := Some rs; authHandler := authHandler d;
     proxyConfig := proxyConfig d; cbConfig := cbConfig d;
     transports := transports d |}.

(** The name under which an endpoint's transport is kept. *)
Definition transName (ep : config.Endpoint) : string :=
  if negb (String.eqb (config.SharedTransport ep) "")
  then config.SharedTransport ep
  else config.Name ep.

(** [func (d *Dispatcher) newProxyStageHandler(ep config.Endpoint)
     ( *StageHandler, error)]: the heap and the dispatcher after the call,
    and the stage or the error. *)
Definition newProxyStageHandler (h : Heap) (d : Dispatcher) (ep : config.Endpoint)
  : Heap * Dispatcher * (string + StageHandler) :=
  match urlParse (config.URL ep) with
  | inl err =>
      (h, d, inl ("failed to parse url: " +:+ config.URL ep +:+ ", for endpoint: "
                  +:+ config.Name ep +:+ ", " +:+ err))
  | inr proxyUrl =>
      let transName := transName ep in
      let '(h, d) :=
        match transports d !! transName with
        | Some v => (h, setTransports d (<[transName := v]> (transports d)))
        | None =>
            let '(l, h') :=
              alloc h (newCbTransport (config.Name ep) (proxyConfig d) (cbConfig d)) in
            (h', setTransports d (<[transName := l]> (transports d)))
        end in
      let routeProxy :=
        {| Target := proxyUrl; rpTransport := transports d !! transName |} in
      (h, d, inr (Stage (ProxyExec routeProxy) None))
  end.

(** [func (d *Dispatcher) newAuthenticatingProxyStageHandler(ep config.Endpoint)
     ( *StageHandler, error)] *)
Definition newAuthenticatingProxyStageHandler (h : Heap) (d : Dispatcher)
    (ep : config.Endpoint) : Heap * Dispatcher * (string + StageHandler) :=
  match authHandler d with
  | None => (h, d, inl "authenticated service configured but no auth handler set")
  | Some ah =>
      match newProxyStageHandler h d ep with
      | (h', d', inl err) => (h', d', inl err)
      | (h', d', inr proxySh) => (h', d', inr (Stage (AuthExec ah) (Some proxySh)))
      end
  end.

(** The [for _, ep := range endpoints] loop of [configureRoutes]. *)
Fixpoint configureLoop (h : Heap) (d : Dispatcher) (rs : gmap string Route)
    (endpoints : list config.Endpoint)
  : Heap * Dispatcher * (string + gmap string Route) :=
  match endpoints with
  | [] => (h, d, inr rs)
  | ep :: rest =>
      let '(h', d', res) :=
        if config.Authenticate ep
        then newAuthenticatingProxyStageHandler h d ep
        else newProxyStageHandler h d ep in
      match res with
      | inl err => (h', d', inl err)
      | inr sh =>
          configureLoop h' d'
            (<[config.Name ep := {| Endpoint := config.Copy ep;
                                    RouteStageHandler := sh |}]> rs) rest
      end
  end.

(** [func (d *Dispatcher) configureRoutes(endpoints []config.Endpoint)
     ( *Dispatcher, error)]: the heap and the receiver after the call, and the
    returned error ([None] for nil). *)
Definition configureRoutes (h : Heap) (d : Dispatcher)
    (endpoints : list config.Endpoint) : Heap * Dispatcher * option string :=
  match configureLoop h d ∅ endpoints with
  | (h', d', inl err) => (h', d', Some err)
  | (h', d', inr rs) => (h', setRoutes d' rs, None)
  end.

(** [type DispatcherBuilder struct] *)
Record DispatcherBuilder := {
  endpoints : list config.Endpoint;
  dispatcher : Dispatcher
}.

(** [func NewDispatchBuilder() *DispatcherBuilder], given the zero value of
    [config.Proxy]. *)
Definition NewDispatchBuilder (zeroProxy : config.Proxy) : DispatcherBuilder :=
  {| endpoints := [];
     dispatcher := {| routes := None; authHandler := None;
                      proxyConfig := zeroProxy; cbConfig := None;
                      transports := ∅ |} |}.

(** [func (b *DispatcherBuilder) ProxyConfig(c config.Proxy) *DispatcherBuilder] *)
Definition ProxyConfig (b : DispatcherBuilder) (c : config.Proxy) : DispatcherBuilder :=
  {| endpoints := endpoints b;
     dispatcher := {| routes := routes (dispatcher b);
                      authHandler := authHandler (dispatcher b);
                      proxyConfig := c; cbConfig := cbConfig (dispatcher b);
                      transports := transports (dispatcher b) |} |}.

(** [func (b *DispatcherBuilder) CircuitBreakerConfig(c *config.CircuitBreaker)
     *DispatcherBuilder] *)
Definition CircuitBreakerConfig (b : DispatcherBuilder)
    (c : option config.CircuitBreaker) : DispatcherBuilder :=
  {| endpoints := endpoints b;
     dispatcher := {| routes := routes (dispatcher b);
                      authHandler := authHandler (dispatcher b);
                      proxyConfig := proxyConfig (dispatcher b); cbConfig := c;
                      transports := transports (dispatcher b) |} |}.

(** [func (b *DispatcherBuilder) AuthHandler(h auth.AuthHandler) *DispatcherBuilder] *)
Definition AuthHandler (b : DispatcherBuilder) (ah : option auth.AuthHandler)
  : DispatcherBuilder :=
  {| endpoints := endpoints b;
     dispatcher := {| routes := routes (dispatcher b); authHandler := ah;
                      proxyConfig := proxyConfig (dispatcher b);
                      cbConfig := cbConfig (dispatcher b);
                      transports := transports (dispatcher b) |} |}.

(** [func (b *DispatcherBuilder) Endpoints(e []config.Endpoint) *DispatcherBuilder] *)
Definition Endpoints (b : DispatcherBuilder) (e : list config.Endpoint)
  : DispatcherBuilder :=
  {| endpoints := e; dispatcher := dispatcher b |}.

(** [func (b *DispatcherBuilder) Build() *Dispatcher]: the transports map is
    made afresh, the routes are compiled, and whatever [configureRoutes]
    returns is dropped. *)
Definition Build (b : DispatcherBuilder) : Heap * Dispatcher :=
  let d := setTransports (dispatcher b) ∅ in
  let '(h, d', _) := configureRoutes [] d (endpoints b) in
  (h, d').

(** How a call of [Dispatch] ends: it returns (always the nil error), it
    panics, or the stage loop is still running when the fuel is used up. *)
Inductive Outcome :=
| Returns (w : list Event)
| Panics (msg : string) (w : list Event)
| Running.

(** [func (dispatcher *Dispatcher) sendError(w, e httperr.Error)] *)
Definition sendError (w : list Event) (e : httperr.Error) : list Event :=
  w ++ [EvWriteHeader (httperr.Code e);
        EvWrite (httperr.Message e +:+ ": " +:+ GoStrings.itoa (httperr.Code e))].

(** The [for nil != sh] loop of [Dispatch]; [fuel] bounds its iterations. *)
Fixpoint stageLoop (fuel : nat) (matchRoute : Route) (sh : option StageHandler)
    (w : list Event) (r : http.Request) : Outcome :=
  match sh with
  | None => Returns w
  | Some s =>
      match fuel with
      | O => Running
      | S fuel' =>
          match call (StageExecHandler s) w r with
          | (Panic m, w') => Panics m w'
          | (Ok false, w') => Returns w'
          | (Ok true, w') =>
              stageLoop fuel' matchRoute (Next (RouteStageHandler matchRoute)) w' r
          end
      end
  end.

(** [func (dispatcher *Dispatcher) Dispatch(w, r) error] *)
Definition Dispatch (fuel : nat) (dispatcher : Dispatcher) (w : list Event)
    (r : http.Request) : Outcome :=
  let pathSgmts := GoStrings.Split "/" (http.Path r) in
  if (1 <=? length pathSgmts)%nat then
    match pathSgmts !! 1%nat with
    | None => Panics "index out of range [1] with length 1" w
    | Some key =>
        match routes dispatcher ≫= (fun rs => rs !! key) with
        | Some matchRoute =>
            stageLoop fuel matchRoute (Some (RouteStageHandler matchRoute)) w r
        | None => Returns (sendError w httperr.NotFound)
        end
    end
  else Returns (sendError w httperr.NotFound).

(** The stages of a chain, front to back. *)
Fixpoint stages (sh : StageHandler) : list ExecHandler :=
  match sh with
  | Stage exec next =>
      exec :: match next with
              | Some n => stages n
              | None => []
              end
  end.

(** The transport pointer held by the terminal stage of a chain, when that
    stage is a proxy stage. *)
Fixpoint chainTransport (sh : StageHandler) : option loc :=
  match sh with
  | Stage exec next =>
      match next with
      | Some n => chainTransport n
      | None =>
          match exec with
          | ProxyExec routeProxy => rpTransport routeProxy
          | AuthExec _ => None
          end
      end
  end.

(** The execution contract as the spec words it, on the chain as an ordered
    sequence: the chain is walked front to back; a stage returning false
    halts the chain; a stage returning true passes control to the next
    stage; after the terminal stage the chain has ended whatever that stage
    returned. *)
Fixpoint specWalk (chain : list ExecHandler) (w : list Event) (r : http.Request)
  : Outcome :=
  match chain with
  | [] => Returns w
  | s :: rest =>
      match call s w r with
      | (Panic m, w') => Panics m w'
      | (Ok false, w') => Returns w'
      | (Ok true, w') => specWalk rest w' r
      end
  end.

(** Was a backend reached?  Only [ServeHTTP] of a reverse proxy does that. *)
Definition isServeHTTP (e : Event) : bool :=
  match e with
  | EvServeHTTP _ _ => true
  | _ => false
  end.

(** The two shapes of chain that route compilation builds: the proxy stage
    alone, or the auth stage (around the dispatcher's auth handler) followed
    by the proxy stage. *)
Definition compiledRoute (ah : option auth.AuthHandler) (rt : Route) : Prop :=
  exists routeProxy,
    if config.Authenticate (Endpoint rt)
    then exists a, ah = Some a /\
           RouteStageHandler rt =
             Stage (AuthExec a) (Some (Stage (ProxyExec routeProxy) None))
    else RouteStageHandler rt = Stage (ProxyExec routeProxy) None.

(** The transports map and the heap agree: every name is bound to a cell of
    the heap, no two names to the same cell, and there are as many names as
    cells, so that no cell was allocated and then dropped or replaced. *)
Definition transportsOk (h : Heap) (t : gmap string loc) : Prop :=
  (forall n l, t !! n = Some l -> (l < length h)%nat)
  /\ (forall n1 n2 l, t !! n1 = Some l -> t !! n2 = Some l -> n1 = n2)
  /\ size t = length h.

(** Every compiled route's terminal stage holds the pointer kept under the
    transport name of the route's endpoint. *)
Definition routesOk (t : gmap string loc) (rs : gmap string Route) : Prop :=
  forall k rt, rs !! k = Some rt ->
    exists l, t !! transName (Endpoint rt) = Some l
              /\ chainTransport (RouteStageHandler rt) = Some l.

End Dispatcher.
End gateway.

(** ** Package [config], continued: the whole [Config], its defaults, [Parse] *)

Module configload.

(** [type Server struct] *)
Record Server := {
  Port : Z;
  ReadTimeoutMs : Z;
  WriteTimeoutMs : Z
}.

(** [type Gateway struct] *)
Record Gateway := {
  PEMFile : string;
  AuthWorkers : Z
}.

(** [type Logger struct] *)
Record Logger := {
  Level : string;
  File : string
}.

(** [type Config struct]; the two pointer fields are [None] when nil. *)
Record Config := {
  cfgGateway : Gateway;
  cfgEndpoints : list config.Endpoint;
  cfgServer : Server;
  cfgProxy : config.Proxy;
  cfgCircuitBreaker : option config.CircuitBreaker;
  cfgLogger : option Logger
}.

Definition defaultLoglevel : string := "info".

(** [x] unless it is the zero value, then [d]: one [if field == 0] of the
    default setters. *)
Definition orDefault (x d : Z) : Z := if Z.eqb x 0 then d else x.

(** [func (config *Config) setServerDefaults()] *)
Definition setServerDefaults (c : Config) : Config :=
  {| cfgGateway := cfgGateway c;
     cfgEndpoints := cfgEndpoints c;
     cfgServer :=
       {| Port := orDefault (Port (cfgServer c)) 8080;
          ReadTimeoutMs := orDefault (ReadTimeoutMs (cfgServer c)) 10000;
          WriteTimeoutMs := orDefault (WriteTimeoutMs (cfgServer c)) 10000 |};
     cfgProxy := cfgProxy c;
     cfgCircuitBreaker := cfgCircuitBreaker c;
     cfgLogger := cfgLogger c |}.

(** The body of [setProxyDefaults] on the [Proxy] struct.  The source tests
    [DialKeepAliveMs] twice (the second test finds it set) and has no test
    for [DialTimeoutMs]. *)
Definition proxyDefaults (p : config.Proxy) : config.Proxy :=
  let keepAlive := orDefault (config.DialKeepAliveMs p) 10000 in
  let keepAlive := orDefault keepAlive 10000 in
  {| config.MaxIdleConns := orDefault (config.MaxIdleConns p) 100;
     config.MaxIdleConnsPerHost := orDefault (config.MaxIdleConnsPerHost p) 10;
     config.IdleConnTimeoutMs := orDefault (config.IdleConnTimeoutMs p) 30000;
     config.TLSHandshakeTimeoutMs := orDefault (config.TLSHandshakeTimeoutMs p) 500;
     config.ExpectContinueTimeoutMs := orDefault (config.ExpectContinueTimeoutMs p) 500;
     config.DialTimeoutMs := config.DialTimeoutMs p;
     config.DialKeepAliveMs := keepAlive;
     config.ResponseHeaderTimeoutMs := orDefault (config.ResponseHeaderTimeoutMs p) 3000 |}.

(** [func (config *Config) setProxyDefaults()] *)
Definition setProxyDefaults (c : Config) : Config :=
  {| cfgGateway := cfgGateway c;
     cfgEndpoints := cfgEndpoints c;
     cfgServer := cfgServer c;
     cfgProxy := proxyDefaults (cfgProxy c);
     cfgCircuitBreaker := cfgCircuitBreaker c;
     cfgLogger := cfgLogger c |}.

(** The body of [setCircuitBreakerDefaults] on the struct pointed to. *)
Definition circuitBreakerDefaults (cb : config.CircuitBreaker) : config.CircuitBreaker :=
  {| config.MaxHalfOpenRequests := orDefault (config.MaxHalfOpenRequests cb) 1;
     config.ClearFailureCountIntervalMs :=
       orDefault (config.ClearFailureCountIntervalMs cb) 10000;
     config.HalfOpenAfterMs := orDefault (config.HalfOpenAfterMs cb) 5000;
     config.FailuresToOpen := orDefault (config.FailuresToOpen cb) 10 |}.

(** [func (config *Config) setCircuitBreakerDefaults()]: the first statement
    reads a field through [config.CircuitBreaker], which panics when that
    pointer is nil. *)
Definition setCircuitBreakerDefaults (c : Config) : Res Config :=
  match cfgCircuitBreaker c with
  | None => Panic "invalid memory address or nil pointer dereference"
  | Some cb =>
      Ok {| cfgGateway := cfgGateway c;
            cfgEndpoints := cfgEndpoints c;
            cfgServer := cfgServer c;
            cfgProxy := cfgProxy c;
            cfgCircuitBreaker := Some (circuitBreakerDefaults cb);
            cfgLogger := cfgLogger c |}
  end.

(** [func (config *Config) setGatewayDefaults()] *)
Definition setGatewayDefaults (c : Config) : Config :=
  {| cfgGateway :=
       {| PEMFile := PEMFile (cfgGateway c);
          AuthWorkers := orDefault (AuthWorkers (cfgGateway c)) 4 |};
     cfgEndpoints := cfgEndpoints c;
     cfgServer := cfgServer c;
     cfgProxy := cfgProxy c;
     cfgCircuitBreaker := cfgCircuitBreaker c;
     cfgLogger := cfgLogger c |}.

(** [func (config *Config) setLoggerDefaults()] *)
Definition setLoggerDefaults (c : Config) : Config :=
  {| cfgGateway := cfgGateway c;
     cfgEndpoints := cfgEndpoints c;
     cfgServer := cfgServer c;
     cfgProxy := cfgProxy c;
     cfgCircuitBreaker := cfgCircuitBreaker c;
     cfgLogger :=
       match cfgLogger c with
       | None => Some {| Level := defaultLoglevel; File := "" |}
       | Some l =>
           if String.eqb (Level l) ""
           then Some {| Level := defaultLoglevel; File := File l |}
           else Some l
       end |}.

Section Parse.
(** [yaml.Unmarshal(ctnt, &c)] with [c := new(Config)]: the error text, or
    the pointer [c] after the call.  [Parse] passes the address of the
    pointer, so the library may set the pointer itself: for a document that
    is null it leaves [c] nil ([None]). *)
Variable yamlUnmarshal : string -> string + option Config.

(** [func Parse(ctnt []byte) ( *Config, error)]: the pair returned, unless
    the call panics.  With [c] nil the read of [config.Endpoints] in
    [validateEndpoints] is a nil pointer dereference. *)
Definition Parse (ctnt : string) : Res (option Config * option string) :=
  match yamlUnmarshal ctnt with
  | inl err => Ok (None, Some ("failed to parse yaml: " +:+ err))
  | inr None => Panic "invalid memory address or nil pointer dereference"
  | inr (Some c) =>
      match config.validateEndpoints (cfgEndpoints c) with
      | (false, err) => Ok (None, err)
      | (true, _) =>
          let c := setProxyDefaults (setServerDefaults c) in
          match setCircuitBreakerDefaults c with
          | Panic m => Panic m
          | Ok c => Ok (Some (setLoggerDefaults (setGatewayDefaults c)), None)
          end
      end
  end.
End Parse.

End configload.

(** ** The proxy a chain ends in *)

Section ChainProxy.
Context {URL : Type}.

(** The reverse proxy of the terminal stage of a chain, when that stage is a
    proxy stage. *)
Fixpoint chainProxy (sh : gateway.StageHandler (URL := URL))
  : option (gateway.ReverseProxy (URL := URL)) :=
  match sh with
  | gateway.Stage exec next =>
      match next with
      | Some n => chainProxy n
      | None =>
          match exec with
          | gateway.ProxyExec routeProxy => Some routeProxy
          | gateway.AuthExec _ => None
          end
      end
  end.

End ChainProxy.

(** ** What route compilation needs and what it leaves behind *)

Section Compilation.
Context {URL : Type}.
Variable urlParse : string -> string + URL.

(** Whether one endpoint compiles: its URL parses and, when it asks for
    authentication, the dispatcher has an auth handler. *)
Definition compiles (ah : option auth.AuthHandler) (ep : config.Endpoint) : Prop :=
  (exists proxyUrl, urlParse (config.URL ep) = inr proxyUrl)
  /\ (config.Authenticate ep = true -> is_Some ah).

(** Every compiled route ends in the reverse proxy for the parsed URL of its
    endpoint, over the pointer kept under the endpoint's transport name. *)
Definition targetsOk (t : gmap string gateway.loc)
    (rs : gmap string (gateway.Route (URL := URL))) : Prop :=
  forall k rt, rs !! k = Some rt ->
    exists proxyUrl l,
      urlParse (config.URL (gateway.Endpoint rt)) = inr proxyUrl
      /\ t !! gateway.transName (gateway.Endpoint rt) = Some l
      /\ chainProxy (gateway.RouteStageHandler rt) =
           Some {| gateway.Target := proxyUrl; gateway.rpTransport := Some l |}.

(** The first endpoint of [all] that has the transport name of [ep] is
    [ep] itself, at position [i]. *)
Definition firstWithName (all : list config.Endpoint) (i : nat)
    (ep : config.Endpoint) : Prop :=
  all !! i = Some ep
  /\ forall j ep', (j < i)%nat -> all !! j = Some ep' ->
       gateway.transName ep' <> gateway.transName ep.

(** Every cell of the heap is the transport made from the dispatcher's two
    configurations and the name of the first endpoint of [all] that has
    its transport name, and is kept under that transport name. *)
Definition cellsOk (all : list config.Endpoint) (h : gateway.Heap)
    (d : gateway.Dispatcher (URL := URL)) : Prop :=
  forall l cell, h !! l = Some cell ->
    exists i ep,
      firstWithName all i ep
      /\ cell = gateway.newCbTransport (config.Name ep)
                 (gateway.proxyConfig d) (gateway.cbConfig d)
      /\ gateway.transports d !! gateway.transName ep = Some l.

End Compilation.

(** ** A small configuration for the examples

    The sample configuration of the repository: [service1] shares the
    transport of [service2]; [secure] requires authentication; [broken] has
    an URL that does not parse. *)

Module Demo.

(** A verifier: the key is a string and a token verifies when it is the key
    followed by a dot and anything. *)
Definition jwtParse (token : string) (k : string) : option string * option string :=
  if String.prefix (k +:+ ".") token then (Some token, None)
  else (None, Some "signature is invalid").

(** A stand-in for [url.Parse]: URLs are kept as strings and must start
    with http://; anything else gets the error [url.Parse] has for
    127.0.0.1:8484. *)
Definition urlParse (s : string) : string + string :=
  if String.prefix "http://" s then inr s else inl "first path segment in URL cannot contain colon".

Definition zeroProxy : config.Proxy :=
  {| config.MaxIdleConns := 0; config.MaxIdleConnsPerHost := 0;
     config.IdleConnTimeoutMs := 0; config.TLSHandshakeTimeoutMs := 0;
     config.ExpectContinueTimeoutMs := 0; config.DialTimeoutMs := 0;
     config.DialKeepAliveMs := 0; config.ResponseHeaderTimeoutMs := 0 |}.

Definition breakerConfig : config.CircuitBreaker :=
  {| config.MaxHalfOpenRequests := 1; config.ClearFailureCountIntervalMs := 10000;
     config.HalfOpenAfterMs := 5000; config.FailuresToOpen := 10 |}.

Definition service1 : config.Endpoint :=
  {| config.Name := "service1"; config.Key := "service1";
     config.URL := "http://localhost:8181"; config.Authenticate := false;
     config.SharedTransport := "service2" |}.

Definition service2 : config.Endpoint :=
  {| config.Name := "service2"; config.Key := "service2";
     config.URL := "http://localhost:8282"; config.Authenticate := false;
     config.SharedTransport := "" |}.

Definition secure : config.Endpoint :=
  {| config.Name := "secure"; config.Key := "secure";
     config.URL := "http://localhost:8383"; config.Authenticate := true;
     config.SharedTransport := "" |}.

Definition broken : config.Endpoint :=
  {| config.Name := "broken"; config.Key := "broken";
     config.URL := "127.0.0.1:8484"; config.Authenticate := false;
     config.SharedTransport := "" |}.

Definition authHandler : auth.AuthHandler :=
  auth.NewJWTAuthHandler jwtParse "k".

(** An auth handler that refuses every request and carries the zero value
    of [httperr.Error]. *)
Definition silent : auth.AuthHandler :=
  fun _ => Ok (false, Some {| httperr.Code := 0; httperr.Message := "" |}).

(** Two endpoints that each name the other as shared transport. *)
Definition alpha : config.Endpoint :=
  {| config.Name := "a"; config.Key := "a";
     config.URL := "http://localhost:8181"; config.Authenticate := false;
     config.SharedTransport := "b" |}.

Definition beta : config.Endpoint :=
  {| config.Name := "b"; config.Key := "b";
     config.URL := "http://localhost:8282"; config.Authenticate := false;
     config.SharedTransport := "a" |}.

Definition builder (eps : list config.Endpoint) : gateway.DispatcherBuilder (URL := string) :=
  gateway.Endpoints
    (gateway.AuthHandler
       (gateway.CircuitBreakerConfig
          (gateway.ProxyConfig (gateway.NewDispatchBuilder zeroProxy) zeroProxy)
          (Some breakerConfig))
       (Some authHandler))
    eps.

Definition request (path : string) (authorization : option string) : http.Request :=
  {| http.Path := path;
     http.Header := match authorization with
                    | Some v => {[ "Authorization" := [v] ]}
                    | None => ∅
                    end |}.

Definition unavailable : http.Response :=
  {| http.StatusCode := 503; http.Body := "unavailable" |}.

(** The verifier the workers of the pool call. *)
Definition verify (token : string) : auth.AuthReturn string :=
  auth.run jwtParse (auth.Authenticate {| auth.key := "k" |} token).

(** Two calls on a pool of one worker, and the state after the worker has
    registered and has been handed the job of the first call. *)
Definition tokens : list string := ["Bearer k.payload"; "Basic xyz"].

Definition schedule : list auth.Action :=
  [auth.Register 0; auth.Acquire 0; auth.Handoff 0].

Definition busy : auth.PoolState (Token := string) :=
  default (auth.NewPooledJWTAuthenticator 1 tokens)
    (auth.runSchedule verify schedule (auth.NewPooledJWTAuthenticator 1 tokens)).


(** The same pool after a run in which both calls have been served and the
    worker has registered again. *)
Definition fullSchedule : list auth.Action :=
  [auth.Register 0; auth.Acquire 1; auth.Handoff 1; auth.Verify 0;
   auth.Respond 0; auth.Register 0; auth.Acquire 0; auth.Handoff 0;
   auth.Verify 0; auth.Respond 0; auth.Register 0].

Definition quiet : auth.PoolState (Token := string) :=
  default (auth.NewPooledJWTAuthenticator 1 tokens)
    (auth.runSchedule verify fullSchedule (auth.NewPooledJWTAuthenticator 1 tokens)).

(** The sample configuration file of the repository, as [yaml.Unmarshal]
    reads it. *)
Definition sampleConfig : configload.Config :=
  {| configload.cfgGateway :=
       {| configload.PEMFile := "assets/local-public-pkcs8.pem";
          configload.AuthWorkers := 8 |};
     configload.cfgEndpoints := [service1; service2];
     configload.cfgServer :=
       {| configload.Port := 9494; configload.ReadTimeoutMs := 10000;
          configload.WriteTimeoutMs := 10000 |};
     configload.cfgProxy :=
       {| config.MaxIdleConns := 100; config.MaxIdleConnsPerHost := 10;
          config.IdleConnTimeoutMs := 30000; config.TLSHandshakeTimeoutMs := 500;
          config.ExpectContinueTimeoutMs := 500; config.DialTimeoutMs := 10000;
          config.DialKeepAliveMs := 10000; config.ResponseHeaderTimeoutMs := 3000 |};
     configload.cfgCircuitBreaker := Some breakerConfig;
     configload.cfgLogger :=
       Some {| configload.Level := "info"; configload.File := "/tmp/foo.log" |} |}.

(** A configuration file that gives the endpoints and an empty circuit
    breaker section and nothing else. *)
Definition bareConfig : configload.Config :=
  {| configload.cfgGateway := {| configload.PEMFile := ""; configload.AuthWorkers := 0 |};
     configload.cfgEndpoints := [service1; service2];
     configload.cfgServer :=
       {| configload.Port := 0; configload.ReadTimeoutMs := 0;
          configload.WriteTimeoutMs := 0 |};
     configload.cfgProxy := zeroProxy;
     configload.cfgCircuitBreaker :=
       Some {| config.MaxHalfOpenRequests := 0; config.ClearFailureCountIntervalMs := 0;
               config.HalfOpenAfterMs := 0; config.FailuresToOpen := 0 |};
     configload.cfgLogger := None |}.

(** A stand-in for [yaml.Unmarshal] that knows the two files by name, and
    the document that is null. *)
Definition yamlUnmarshal (ctnt : string) : string + option configload.Config :=
  if String.eqb ctnt "sample" then inr (Some sampleConfig)
  else if String.eqb ctnt "bare" then inr (Some bareConfig)
  else if String.eqb ctnt "~" then inr None
  else inl "yaml: unmarshal errors".

End Demo.

(** * Properties *)

(** ** Splitting strings *)

Section SplitFacts.
Import GoStrings.

Lemma cut_absent sep s : hasByte sep s = false -> cut sep s = None.
Proof.
  induction s as [|c s IH]; simpl; [done|].
  destruct (Ascii.eqb c sep); simpl; [done|].
  intros H. by rewrite IH.
Qed.

Lemma cut_first sep p0 rest :
  hasByte sep p0 = false -> cut sep (p0 +:+ String sep rest) = Some (p0, rest).
Proof.
  induction p0 as [|c p0 IH]; simpl.
  - intros _. by rewrite Ascii.eqb_refl.
  - destruct (Ascii.eqb c sep); simpl; [done|].
    intros H. by rewrite IH.
Qed.

Lemma Split_absent sep s : hasByte sep s = false -> Split sep s = [s].
Proof.
  induction s as [|c s IH]; simpl; [done|].
  destruct (Ascii.eqb c sep); simpl; [done|].
  intros H. by rewrite IH.
Qed.

Lemma Split_nonempty sep s : (1 <=? length (Split sep s))%nat = true.
Proof.
  destruct s as [|c s]; simpl; [done|].
  destruct (Ascii.eqb c sep); [done|].
  by destruct (Split sep s).
Qed.

Lemma Split_present sep s :
  hasByte sep s = true -> exists key, Split sep s !! 1%nat = Some key.
Proof.
  induction s as [|c s IH]; simpl; [done|].
  destruct (Ascii.eqb c sep) eqn:E; simpl.
  - intros _. destruct s as [|c' s]; simpl; [by eexists|].
    destruct (Ascii.eqb c' sep); [by eexists|].
    destruct (Split sep s); by eexists.
  - intros H. destruct (IH H) as [key Hk].
    destruct (Split sep s) as [|x l]; [done|]. by exists key.
Qed.

End SplitFacts.

(** ** The authentication verifier *)

Section VerifierFacts.
Context {Token Key : Type}.
Implicit Types (authenticator : auth.JWTAuthenticator Key).
Implicit Types (jwtParse : string -> Key -> option Token * option string).
Local Abbreviation Authenticate := (auth.Authenticate (Token := Token)).

Lemma splitToken_two_parts p0 rest :
  GoStrings.hasByte " " p0 = false ->
  auth.splitToken (p0 +:+ String " " rest) =
    if String.eqb (GoStrings.ToLower p0) "bearer" then (rest, None)
    else ("", Some "not a bearer token").
Proof.
  intros H. unfold auth.splitToken. simpl. by rewrite cut_first.
Qed.

Lemma splitToken_one_part creds :
  GoStrings.hasByte " " creds = false -> auth.splitToken creds = (creds, None).
Proof.
  intros H. unfold auth.splitToken. simpl. by rewrite cut_absent.
Qed.

(** C7: a credential [p0 ++ " " ++ rest] (two parts, cut at the first space)
    whose first part lowercased is not "bearer" is answered with
    [Success = false] and the [AuthError] "not a bearer token"; the
    computation is finished at once, so no token is handed to [jwt.Parse]. *)
Theorem Authenticate_not_bearer authenticator p0 rest :
  GoStrings.hasByte " " p0 = false ->
  GoStrings.ToLower p0 <> "bearer" ->
  Authenticate authenticator (p0 +:+ String " " rest) =
    auth.Ret ({| auth.Success := false; auth.Artifact := None |},
              Some {| auth.msg := "not a bearer token" |})
  /\ forall jwtParse,
       auth.verified jwtParse (Authenticate authenticator (p0 +:+ String " " rest)) = [].
Proof.
  intros Hsp Hne.
  assert (Authenticate authenticator (p0 +:+ String " " rest) =
    auth.Ret ({| auth.Success := false; auth.Artifact := None |},
              Some {| auth.msg := "not a bearer token" |})) as E.
  { unfold auth.Authenticate. rewrite splitToken_two_parts by done.
    destruct (String.eqb (GoStrings.ToLower p0) "bearer") eqn:Eb; [|done].
    apply String.eqb_eq in Eb. done. }
  split; [done|]. intros jwtParse. by rewrite E.
Qed.

(** C10: a credential without any space is returned whole by [splitToken]
    with no error; [Authenticate] hands exactly that string to [jwt.Parse],
    and when the library accepts it the result is [Success = true] with the
    parsed token and no error. *)
Theorem Authenticate_bare_token authenticator creds :
  GoStrings.hasByte " " creds = false ->
  auth.splitToken creds = (creds, None)
  /\ (forall jwtParse,
        auth.verified jwtParse (Authenticate authenticator creds) = [creds])
  /\ (forall jwtParse parsedToken,
        jwtParse creds (auth.key authenticator) = (Some parsedToken, None) ->
        auth.run jwtParse (Authenticate authenticator creds) =
          ({| auth.Success := true; auth.Artifact := Some parsedToken |}, None)).
Proof.
  intros Hsp. pose proof (splitToken_one_part creds Hsp) as E.
  split; [done|]. unfold auth.Authenticate. rewrite E. split.
  - intros jwtParse. simpl.
    by destruct (jwtParse creds (auth.key authenticator)) as [[?|] [?|]].
  - intros jwtParse parsedToken Hp. simpl. by rewrite Hp.
Qed.

End VerifierFacts.

Lemma Authenticate_not_bearer_witness :
  auth.Authenticate (Token := string) {| auth.key := "k" |} "Basic xyz" =
    auth.Ret ({| auth.Success := false; auth.Artifact := None |},
              Some {| auth.msg := "not a bearer token" |})
  /\ forall jwtParse,
       auth.verified jwtParse
         (auth.Authenticate (Token := string) {| auth.key := "k" |} "Basic xyz") = [].
Proof.
  apply (Authenticate_not_bearer (Token := string) {| auth.key := "k" |} "Basic" "xyz").
  - reflexivity.
  - vm_compute. discriminate.
Defined.

Lemma Authenticate_bare_token_witness :
  auth.run Demo.jwtParse (auth.Authenticate {| auth.key := "k" |} "k.payload") =
    ({| auth.Success := true; auth.Artifact := Some "k.payload" |}, None).
Proof.
  apply (Authenticate_bare_token {| auth.key := "k" |} "k.payload").
  - reflexivity.
  - reflexivity.
Defined.

(** ** Dispatch *)

Section DispatchFacts.
Context {URL : Type}.
Variable urlParse : string -> string + URL.
Local Abbreviation Dispatcher := (gateway.Dispatcher (URL := URL)).
Local Abbreviation Event := (gateway.Event (URL := URL)).
Implicit Types (d : Dispatcher) (w : list Event) (r : http.Request).

Lemma Dispatch_no_slash fuel d w r :
  GoStrings.hasByte "/" (http.Path r) = false ->
  gateway.Dispatch fuel d w r =
    gateway.Panics "index out of range [1] with length 1" w.
Proof.
  intros H. unfold gateway.Dispatch. by rewrite Split_absent.
Qed.

Lemma Dispatch_lookup fuel d w r key :
  GoStrings.Split "/" (http.Path r) !! 1%nat = Some key ->
  gateway.Dispatch fuel d w r =
    match gateway.routes d ≫= (fun rs => rs !! key) with
    | Some matchRoute =>
        gateway.stageLoop fuel matchRoute
          (Some (gateway.RouteStageHandler matchRoute)) w r
    | None => gateway.Returns (gateway.sendError w httperr.NotFound)
    end.
Proof.
  intros H. unfold gateway.Dispatch. by rewrite Split_nonempty, H.
Qed.

Lemma Dispatch_no_routes fuel d w r :
  gateway.routes d = None ->
  GoStrings.hasByte "/" (http.Path r) = true ->
  gateway.Dispatch fuel d w r =
    gateway.Returns (gateway.sendError w httperr.NotFound).
Proof.
  intros Hr Hs. destruct (Split_present _ _ Hs) as [key Hk].
  rewrite (Dispatch_lookup _ _ _ _ key Hk). by rewrite Hr.
Qed.

Lemma sendError_NotFound w :
  gateway.sendError w httperr.NotFound =
    w ++ [gateway.EvWriteHeader 404; gateway.EvWrite "not found: 404"].
Proof. reflexivity. Qed.

(** C5: the request path "" (no slash at all) makes [Dispatch] panic at
    [pathSgmts[1]]: [strings.Split] gives one segment, the guard
    [len(pathSgmts) >= 1] lets it through, and no 404 is written. *)
Theorem Dispatch_empty_path_panics fuel d w hdr :
  gateway.Dispatch fuel d w {| http.Path := ""; http.Header := hdr |} =
    gateway.Panics "index out of range [1] with length 1" w.
Proof. by apply Dispatch_no_slash. Qed.

Lemma configureLoop_routes h d rs eps h' d' res :
  gateway.configureLoop urlParse h d rs eps = (h', d', res) ->
  gateway.routes d' = gateway.routes d
  /\ gateway.authHandler d' = gateway.authHandler d.
Proof.
  revert h d rs. induction eps as [|ep eps IH]; intros h d rs; simpl.
  - by intros [= <- <- <-].
  - unfold gateway.newAuthenticatingProxyStageHandler, gateway.newProxyStageHandler.
    destruct (config.Authenticate ep), (gateway.authHandler d) eqn:Ea,
      (urlParse (config.URL ep)), (gateway.transports d !! gateway.transName ep);
      simpl; try (by intros [= <- <- <-]);
      intros E; apply IH in E as [-> ->]; done.
Qed.

Lemma configureRoutes_error h d eps h' d' err :
  gateway.configureRoutes urlParse h d eps = (h', d', Some err) ->
  gateway.routes d' = gateway.routes d.
Proof.
  unfold gateway.configureRoutes.
  destruct (gateway.configureLoop urlParse h d ∅ eps) as [[h1 d1] [e|rs]] eqn:E;
    [|done].
  intros [= <- <- <-]. by apply configureLoop_routes in E as [-> _].
Qed.

(** When [configureRoutes] returns an error, [Build] drops it and still
    returns the dispatcher; the route table of a fresh builder stays nil,
    and every request whose path contains a slash is answered with 404 and
    "not found: 404". *)
Theorem Build_drops_error (b : gateway.DispatcherBuilder) err :
  gateway.routes (gateway.dispatcher b) = None ->
  (gateway.configureRoutes urlParse []
     (gateway.setTransports (gateway.dispatcher b) ∅) (gateway.endpoints b)).2
    = Some err ->
  gateway.routes (gateway.Build urlParse b).2 = None
  /\ forall fuel w r,
       GoStrings.hasByte "/" (http.Path r) = true ->
       gateway.Dispatch fuel (gateway.Build urlParse b).2 w r =
         gateway.Returns
           (w ++ [gateway.EvWriteHeader 404; gateway.EvWrite "not found: 404"]).
Proof.
  intros Hnil Herr.
  assert (gateway.routes (gateway.Build urlParse b).2 = None) as Hr.
  { unfold gateway.Build.
    destruct (gateway.configureRoutes _ _ _ _) as [[h' d'] e] eqn:E.
    simpl in *. subst e. by apply configureRoutes_error in E as ->. }
  split; [done|]. intros fuel w r Hs.
  by rewrite Dispatch_no_routes.
Qed.

(** C1: an endpoint named "svc1" with route key "service1".  Whatever
    [url.Parse] answers, a request for /service1/anything is not dispatched
    to the endpoint's chain: the route is stored under the name, and the
    request gets the 404 of [sendError]. *)
Theorem routes_indexed_by_name_not_key zeroProxy fuel w hdr :
  let ep := {| config.Name := "svc1"; config.Key := "service1";
               config.URL := "http://localhost:8181";
               config.Authenticate := false; config.SharedTransport := "" |} in
  let b := gateway.Endpoints (gateway.NewDispatchBuilder zeroProxy) [ep] in
  gateway.Dispatch fuel (gateway.Build urlParse b).2 w
    {| http.Path := "/service1/anything"; http.Header := hdr |} =
  gateway.Returns
    (w ++ [gateway.EvWriteHeader 404; gateway.EvWrite "not found: 404"]).
Proof.
  intros ep b.
  rewrite (Dispatch_lookup _ _ _ _ "service1") by reflexivity.
  unfold gateway.Build, gateway.configureRoutes. simpl.
  unfold gateway.newProxyStageHandler. simpl.
  destruct (urlParse "http://localhost:8181"); simpl; [done|].
  rewrite lookup_empty. simpl. by rewrite lookup_insert_ne.
Qed.

End DispatchFacts.

(** ** Route compilation *)

Section CompileFacts.
Context {URL : Type}.
Variable urlParse : string -> string + URL.
Local Abbreviation Dispatcher := (gateway.Dispatcher (URL := URL)).
Local Abbreviation Route := (gateway.Route (URL := URL)).
Local Abbreviation StageHandler := (gateway.StageHandler (URL := URL)).
Implicit Types (d : Dispatcher) (h : gateway.Heap) (ep : config.Endpoint).
Implicit Types (rs : gmap string Route) (sh : StageHandler).

Lemma Copy_id ep : config.Copy ep = ep.
Proof. by destruct ep. Qed.

Lemma newProxyStageHandler_ok h d ep h' d' sh :
  gateway.newProxyStageHandler urlParse h d ep = (h', d', inr sh) ->
  exists proxyUrl l,
    urlParse (config.URL ep) = inr proxyUrl
    /\ sh = gateway.Stage
              (gateway.ProxyExec {| gateway.Target := proxyUrl;
                                    gateway.rpTransport := Some l |}) None
    /\ gateway.transports d' !! gateway.transName ep = Some l
    /\ gateway.authHandler d' = gateway.authHandler d
    /\ ((gateway.transports d !! gateway.transName ep = Some l
         /\ h' = h /\ gateway.transports d' = gateway.transports d)
        \/ (gateway.transports d !! gateway.transName ep = None
            /\ l = length h
            /\ h' = h ++ [gateway.newCbTransport (config.Name ep)
                            (gateway.proxyConfig d) (gateway.cbConfig d)]
            /\ gateway.transports d' =
                 <[gateway.transName ep := l]> (gateway.transports d))).
Proof.
  unfold gateway.newProxyStageHandler.
  destruct (urlParse (config.URL ep)) as [e|proxyUrl]; [done|].
  destruct (gateway.transports d !! gateway.transName ep) as [v|] eqn:Et; simpl.
  - intros [= <- <- <-]. exists proxyUrl, v. simpl.
    rewrite lookup_insert_eq. repeat split; try done.
    left. repeat split; try done. by apply insert_id.
  - intros [= <- <- <-]. exists proxyUrl, (length h). simpl.
    rewrite lookup_insert_eq. repeat split; try done.
    right. done.
Qed.

Lemma newProxyStageHandler_err h d ep h' d' err :
  gateway.newProxyStageHandler urlParse h d ep = (h', d', inl err) ->
  h' = h /\ d' = d.
Proof.
  unfold gateway.newProxyStageHandler.
  destruct (urlParse (config.URL ep)) as [e|proxyUrl].
  - by intros [= <- <- <-].
  - by destruct (gateway.transports d !! gateway.transName ep).
Qed.

(** What compiling one endpoint does, whichever of the two constructors
    [configureRoutes] picks. *)
Lemma compile_ok h d ep h' d' sh :
  (if config.Authenticate ep
   then gateway.newAuthenticatingProxyStageHandler urlParse h d ep
   else gateway.newProxyStageHandler urlParse h d ep) = (h', d', inr sh) ->
  exists l,
    gateway.compiledRoute (gateway.authHandler d)
      {| gateway.Endpoint := config.Copy ep; gateway.RouteStageHandler := sh |}
    /\ gateway.chainTransport sh = Some l
    /\ gateway.transports d' !! gateway.transName ep = Some l
    /\ gateway.authHandler d' = gateway.authHandler d
    /\ ((gateway.transports d !! gateway.transName ep = Some l
         /\ h' = h /\ gateway.transports d' = gateway.transports d)
        \/ (gateway.transports d !! gateway.transName ep = None
            /\ l = length h
            /\ h' = h ++ [gateway.newCbTransport (config.Name ep)
                            (gateway.proxyConfig d) (gateway.cbConfig d)]
            /\ gateway.transports d' =
                 <[gateway.transName ep := l]> (gateway.transports d))).
Proof.
  unfold gateway.compiledRoute. rewrite Copy_id. simpl.
  destruct (config.Authenticate ep) eqn:Ea.
  - unfold gateway.newAuthenticatingProxyStageHandler.
    destruct (gateway.authHandler d) as [a|] eqn:Eh; [|done].
    destruct (gateway.newProxyStageHandler urlParse h d ep)
      as [[h1 d1] [e|proxySh]] eqn:E; [done|].
    intros [= <- <- <-].
    apply newProxyStageHandler_ok in E as (proxyUrl & l & _ & -> & Hl & Hah & Hc).
    exists l. split; [|by rewrite Hah, Eh].
    eexists. by exists a.
  - intros E.
    apply newProxyStageHandler_ok in E as (proxyUrl & l & _ & -> & Hl & Hah & Hc).
    exists l. split; [|done]. by eexists.
Qed.

Lemma compile_err h d ep h' d' err :
  (if config.Authenticate ep
   then gateway.newAuthenticatingProxyStageHandler urlParse h d ep
   else gateway.newProxyStageHandler urlParse h d ep) = (h', d', inl err) ->
  h' = h /\ d' = d.
Proof.
  destruct (config.Authenticate ep); [|apply newProxyStageHandler_err].
  unfold gateway.newAuthenticatingProxyStageHandler.
  destruct (gateway.authHandler d); [|by intros [= <- <- <-]].
  destruct (gateway.newProxyStageHandler urlParse h d ep)
    as [[h1 d1] [e|proxySh]] eqn:E; [|done].
  intros [= <- <- <-]. by apply newProxyStageHandler_err in E.
Qed.

Lemma transportsOk_alloc h (t : gmap string gateway.loc) n c :
  gateway.transportsOk h t -> t !! n = None ->
  gateway.transportsOk (h ++ [c]) (<[n := length h]> t).
Proof.
  intros (Hb & Hi & Hs) Hn. repeat split.
  - intros n' l. rewrite length_app. simpl.
    destruct (decide (n = n')) as [->|Hne].
    + rewrite lookup_insert_eq. intros [= <-]. lia.
    + rewrite lookup_insert_ne by done. intros H%Hb. lia.
  - intros n1 n2 l H1 H2.
    apply lookup_insert_Some in H1 as [[<- <-]|[? H1]];
      apply lookup_insert_Some in H2 as [[<- E2]|[? H2]]; try done.
    + apply Hb in H2. lia.
    + apply Hb in H1. lia.
    + by eapply Hi.
  - rewrite map_size_insert_None by done. rewrite length_app. simpl. lia.
Qed.

Lemma routesOk_mono (t t' : gmap string gateway.loc) rs :
  t ⊆ t' -> gateway.routesOk t rs -> gateway.routesOk t' rs.
Proof.
  intros Hsub Hr k rt Hk. destruct (Hr k rt Hk) as (l & Hl & Hc).
  exists l. split; [|done]. by eapply lookup_weaken.
Qed.

(** The invariant of the compilation loop. *)
Lemma configureLoop_inv eps : forall h d rs h' d' res,
  gateway.transportsOk h (gateway.transports d) ->
  gateway.routesOk (gateway.transports d) rs ->
  map_Forall (fun _ rt => gateway.compiledRoute (gateway.authHandler d) rt) rs ->
  gateway.configureLoop urlParse h d rs eps = (h', d', res) ->
  gateway.transportsOk h' (gateway.transports d')
  /\ forall rs', res = inr rs' ->
       gateway.routesOk (gateway.transports d') rs'
       /\ map_Forall (fun _ rt => gateway.compiledRoute (gateway.authHandler d) rt) rs'.
Proof.
  induction eps as [|ep eps IH]; intros h d rs h' d' res Ht Hr Hc; simpl.
  - intros [= <- <- <-]. split; [done|]. by intros rs' [= <-].
  - destruct (if config.Authenticate ep
              then gateway.newAuthenticatingProxyStageHandler urlParse h d ep
              else gateway.newProxyStageHandler urlParse h d ep)
      as [[h1 d1] [e|sh]] eqn:E.
    + apply compile_err in E as [-> ->]. intros [= <- <- <-]. by split.
    + apply compile_ok in E as (l & Hshape & Hct & Hl & Hah & Hcase).
      intros Hloop.
      assert (gateway.transportsOk h1 (gateway.transports d1)
              /\ gateway.transports d ⊆ gateway.transports d1) as [Ht1 Hsub].
      { destruct Hcase as [(_ & -> & ->)|(Hn & -> & -> & ->)]; [done|].
        split; [by apply transportsOk_alloc|by apply insert_subseteq]. }
      eapply IH in Hloop; [|done| |].
      * rewrite Hah in Hloop. exact Hloop.
      * intros k rt. destruct (decide (config.Name ep = k)) as [<-|Hne].
        -- rewrite lookup_insert_eq. intros [= <-]. simpl. rewrite Copy_id.
           by exists l.
        -- rewrite lookup_insert_ne by done. intros Hk.
           by apply (routesOk_mono _ _ _ Hsub Hr k rt).
      * rewrite Hah. by apply map_Forall_insert_2.
Qed.

Lemma Build_inv (b : gateway.DispatcherBuilder) h d :
  gateway.Build urlParse b = (h, d) ->
  gateway.transportsOk h (gateway.transports d)
  /\ gateway.authHandler d = gateway.authHandler (gateway.dispatcher b)
  /\ (gateway.routes (gateway.dispatcher b) = None ->
      forall rs, gateway.routes d = Some rs ->
        gateway.routesOk (gateway.transports d) rs
        /\ map_Forall (fun _ rt => gateway.compiledRoute (gateway.authHandler d) rt) rs).
Proof.
  unfold gateway.Build, gateway.configureRoutes.
  destruct (gateway.configureLoop urlParse [] _ ∅ (gateway.endpoints b))
    as [[h1 d1] res] eqn:E.
  pose proof (configureLoop_routes _ _ _ _ _ _ _ _ E) as [Hroutes Hah].
  apply configureLoop_inv in E as [Ht Hres].
  - destruct res as [e|rs1]; intros [= <- <-]; simpl in *.
    + split; [done|]. split; [done|]. intros Hnil rs.
      by rewrite Hroutes, Hnil.
    + split; [done|]. split; [done|]. intros _ rs [= <-].
      rewrite Hah. by apply Hres.
  - repeat split; simpl; intros *; by rewrite ?lookup_empty.
  - intros k rt. by rewrite lookup_empty.
  - apply map_Forall_empty.
Qed.

End CompileFacts.

(** ** Stage chains *)

Section StageFacts.
Context {URL : Type}.
Variable urlParse : string -> string + URL.
Local Abbreviation Dispatcher := (gateway.Dispatcher (URL := URL)).
Local Abbreviation Route := (gateway.Route (URL := URL)).
Local Abbreviation StageHandler := (gateway.StageHandler (URL := URL)).
Local Abbreviation Event := (gateway.Event (URL := URL)).
Implicit Types (d : Dispatcher) (h : gateway.Heap) (ep : config.Endpoint).
Implicit Types (rt : Route) (sh : StageHandler) (w : list Event) (r : http.Request).

(** [StageHandler.Execute] follows the contract on every chain. *)
Lemma Execute_specWalk : forall sh w r,
  gateway.specWalk (gateway.stages sh) w r =
    match gateway.Execute sh w r with
    | (Ok _, w') => gateway.Returns w'
    | (Panic m, w') => gateway.Panics m w'
    end.
Proof.
  fix IH 1. intros [exec [n|]] w r; simpl;
    destruct (gateway.call exec w r) as [[[|]|m] w']; auto.
Qed.

Lemma stageLoop_proxy_only fuel rt routeProxy w r :
  gateway.stageLoop (S fuel) rt
    (Some (gateway.Stage (gateway.ProxyExec routeProxy) None)) w r =
  gateway.Returns (w ++ [gateway.EvServeHTTP routeProxy r]).
Proof. reflexivity. Qed.

Lemma stageLoop_compiled fuel d rt w r :
  gateway.compiledRoute (gateway.authHandler d) rt ->
  gateway.stageLoop (S (S fuel)) rt (Some (gateway.RouteStageHandler rt)) w r =
    gateway.specWalk (gateway.stages (gateway.RouteStageHandler rt)) w r.
Proof.
  intros [routeProxy Hshape].
  destruct (config.Authenticate (gateway.Endpoint rt)).
  - destruct Hshape as (a & _ & Hsh). rewrite Hsh.
    cbn [gateway.stageLoop gateway.stages gateway.specWalk
         gateway.StageExecHandler].
    destruct (gateway.call (gateway.AuthExec a) w r) as [[[|]|m] w']; try done.
    by rewrite Hsh.
  - by rewrite Hshape.
Qed.

(** The loop of [Dispatch] goes back to the second stage of the chain after
    every stage that returns true, so on a chain of three stages whose first
    two return true it never gets to the third.  Route compilation builds no
    such chain. *)
Lemma stageLoop_rereads_head (a : auth.AuthHandler) routeProxy rt r :
  (forall r', a r' = Ok (true, None)) ->
  gateway.RouteStageHandler rt =
    gateway.Stage (gateway.AuthExec a)
      (Some (gateway.Stage (gateway.AuthExec a)
         (Some (gateway.Stage (gateway.ProxyExec routeProxy) None)))) ->
  forall fuel w,
    gateway.stageLoop fuel rt (gateway.Next (gateway.RouteStageHandler rt)) w r
      = gateway.Running.
Proof.
  intros Ha Hsh. induction fuel as [|fuel IH]; intros w.
  - by rewrite Hsh.
  - rewrite Hsh. simpl. rewrite Ha. rewrite <- (IH (w ++ [gateway.EvAuthHandler r])).
    by rewrite Hsh.
Qed.

(** C3: a chain compiled by [newProxyStageHandler] or by
    [newAuthenticatingProxyStageHandler], run by the loop of [Dispatch] with
    fuel for two iterations or more, and run by [StageHandler.Execute], ends
    exactly as the execution contract says: front to back, halting at the
    first stage that returns false, going on to the next stage after one
    that returns true, and ending after the terminal stage.  [Dispatch] on a
    request routed to such a chain ends the same way. *)
Theorem compiled_chain_runs_in_order h d ep h' d' sh rt fuel w r :
  gateway.newProxyStageHandler urlParse h d ep = (h', d', inr sh)
  \/ gateway.newAuthenticatingProxyStageHandler urlParse h d ep = (h', d', inr sh) ->
  gateway.RouteStageHandler rt = sh ->
  gateway.stageLoop (S (S fuel)) rt (Some sh) w r =
    gateway.specWalk (gateway.stages sh) w r
  /\ match gateway.Execute sh w r with
     | (Ok _, w') => gateway.Returns w'
     | (Panic m, w') => gateway.Panics m w'
     end = gateway.specWalk (gateway.stages sh) w r
  /\ forall (disp : Dispatcher) key,
       GoStrings.Split "/" (http.Path r) !! 1%nat = Some key ->
       gateway.routes disp ≫= (fun rs => rs !! key) = Some rt ->
       gateway.Dispatch (S (S fuel)) disp w r =
         gateway.specWalk (gateway.stages sh) w r.
Proof.
  intros Hc <-.
  assert (gateway.stageLoop (S (S fuel)) rt
            (Some (gateway.RouteStageHandler rt)) w r =
          gateway.specWalk (gateway.stages (gateway.RouteStageHandler rt)) w r)
    as Hloop.
  { destruct Hc as [Hc|Hc].
    - apply newProxyStageHandler_ok in Hc as (proxyUrl & l & _ & -> & _).
      reflexivity.
    - unfold gateway.newAuthenticatingProxyStageHandler in Hc.
      destruct (gateway.authHandler d) as [a|]; [|done].
      destruct (gateway.newProxyStageHandler urlParse h d ep)
        as [[h1 d1] [e|proxySh]] eqn:E; [done|].
      apply newProxyStageHandler_ok in E as (proxyUrl & l & _ & -> & _).
      injection Hc as <- <- Hsh. rewrite <- Hsh.
      cbn [gateway.stageLoop gateway.stages gateway.specWalk
           gateway.StageExecHandler].
      destruct (gateway.call (gateway.AuthExec a) w r) as [[[|]|m] w']; try done.
      by rewrite <- Hsh. }
  split; [done|]. split; [by rewrite Execute_specWalk|].
  intros disp key Hk Hr. by rewrite (Dispatch_lookup _ _ _ _ key Hk), Hr.
Qed.

(** C4 (amended): on a dispatcher built from a fresh builder, for a request
    routed to an endpoint that requires authentication: when the auth
    handler answers failure, the first stage of the chain is the auth stage;
    when an HTTP error is carried it writes that error's code unless the
    code is 0 and that error's message unless the message is empty, and
    when none is carried it writes 403 and "forbidden"; it returns false,
    [Dispatch] returns after these writes and [ServeHTTP] of the proxy is
    not among them.  A carried code other than 0 is taken to be one that
    [WriteHeader] accepts.  With the handler of [newJWTAuthHandler], a
    request without Authorization header gets 401 and "unauthorized". *)
Theorem auth_failure_halts_chain {Token : Type} (b : gateway.DispatcherBuilder)
    (ah : auth.AuthHandler) rs key rt fuel w r :
  gateway.routes (gateway.dispatcher b) = None ->
  gateway.authHandler (gateway.dispatcher b) = Some ah ->
  gateway.routes (gateway.Build urlParse b).2 = Some rs ->
  rs !! key = Some rt ->
  config.Authenticate (gateway.Endpoint rt) = true ->
  GoStrings.Split "/" (http.Path r) !! 1%nat = Some key ->
  (forall httpErr, ah r = Ok (false, httpErr) ->
     (forall e, httpErr = Some e ->
        httperr.Code e = 0%Z \/ http.validStatus (httperr.Code e) = true) ->
     let writes : list Event :=
       match httpErr with
       | Some e =>
           (if Z.eqb (httperr.Code e) 0 then []
            else [gateway.EvWriteHeader (httperr.Code e)])
           ++ (if String.eqb (httperr.Message e) "" then []
               else [gateway.EvWrite (httperr.Message e)])
       | None => [gateway.EvWriteHeader 403; gateway.EvWrite "forbidden"]
       end in
     gateway.StageExecHandler (gateway.RouteStageHandler rt) = gateway.AuthExec ah
     /\ gateway.call (gateway.AuthExec ah) w r =
          (Ok false, w ++ gateway.EvAuthHandler r :: writes)
     /\ gateway.Dispatch (S fuel) (gateway.Build urlParse b).2 w r =
          gateway.Returns (w ++ gateway.EvAuthHandler r :: writes)
     /\ forallb (fun e => negb (gateway.isServeHTTP e))
          (gateway.EvAuthHandler r :: writes) = true)
  /\ (forall (T : Type) (A : auth.Authenticator (Token := Token) T) (a : T),
        ah = auth.newJWTAuthHandler a ->
        http.Header r !! "Authorization" = None ->
        gateway.Dispatch (S fuel) (gateway.Build urlParse b).2 w r =
          gateway.Returns
            (w ++ [gateway.EvAuthHandler r; gateway.EvWriteHeader 401;
                   gateway.EvWrite "unauthorized"])).
Proof.
  intros Hnil Hah Hrs Hk Hauth Hkey.
  destruct (gateway.Build urlParse b) as [h d] eqn:EB. simpl in *.
  apply Build_inv in EB as (_ & Hah' & Hinv).
  destruct (Hinv Hnil rs Hrs) as [_ Hshape].
  specialize (Hshape key rt Hk). simpl in Hshape.
  destruct Hshape as [routeProxy Hshape]. rewrite Hauth in Hshape.
  destruct Hshape as (a & Ea & Hsh). rewrite Hah', Hah in Ea.
  injection Ea as <-.
  assert (forall httpErr, ah r = Ok (false, httpErr) ->
    gateway.call (gateway.AuthExec ah) w r =
      (Ok false, w ++ gateway.EvAuthHandler r ::
         match httpErr with
         | Some e =>
             (if Z.eqb (httperr.Code e) 0 then []
              else [gateway.EvWriteHeader (httperr.Code e)])
             ++ (if String.eqb (httperr.Message e) "" then []
                 else [gateway.EvWrite (httperr.Message e)])
         | None => [gateway.EvWriteHeader 403; gateway.EvWrite "forbidden"]
         end)) as Hcall.
  { intros httpErr Hr. simpl. rewrite Hr. destruct httpErr as [e|].
    - destruct (Z.eqb (httperr.Code e) 0), (String.eqb (httperr.Message e) "");
        simpl; by rewrite <- ?app_assoc.
    - by rewrite <- app_assoc. }
  assert (forall httpErr w', ah r = Ok (false, httpErr) ->
    gateway.call (gateway.AuthExec ah) w r = (Ok false, w') ->
    gateway.Dispatch (S fuel) d w r = gateway.Returns w') as Hdisp.
  { intros httpErr w' Hr Hc. rewrite (Dispatch_lookup _ _ _ _ key Hkey), Hrs.
    simpl. rewrite Hk, Hsh.
    cbn [gateway.stageLoop gateway.StageExecHandler]. by rewrite Hc. }
  split.
  - intros httpErr Hr _. split; [by rewrite Hsh|].
    split; [by apply Hcall|]. split; [by eapply Hdisp, Hcall|].
    destruct httpErr as [e|]; [|done]. simpl.
    by destruct (Z.eqb (httperr.Code e) 0), (String.eqb (httperr.Message e) "").
  - intros T A a -> Hhdr.
    assert (auth.newJWTAuthHandler a r = Ok (false, Some httperr.UnAuthorized)) as Hr.
    { unfold auth.newJWTAuthHandler. by rewrite Hhdr. }
    eapply Hdisp; [done|]. by rewrite (Hcall _ Hr).
Qed.

End StageFacts.

(** ** Transport handles *)

Section TransportFacts.
Context {URL : Type}.
Variable urlParse : string -> string + URL.
Local Abbreviation Dispatcher := (gateway.Dispatcher (URL := URL)).
Local Abbreviation Route := (gateway.Route (URL := URL)).
Local Abbreviation StageHandler := (gateway.StageHandler (URL := URL)).
Implicit Types (d : Dispatcher) (h : gateway.Heap) (ep : config.Endpoint).
Implicit Types (rs : gmap string Route) (sh : StageHandler).

(** Names enter the transports map only as transport names of endpoints. *)
Lemma configureLoop_names eps : forall h d rs h' d' res n,
  gateway.configureLoop urlParse h d rs eps = (h', d', res) ->
  is_Some (gateway.transports d' !! n) ->
  is_Some (gateway.transports d !! n)
  \/ exists ep, ep ∈ eps /\ gateway.transName ep = n.
Proof.
  induction eps as [|ep eps IH]; intros h d rs h' d' res n; simpl.
  - intros [= <- <- <-]. by left.
  - destruct (if config.Authenticate ep
              then gateway.newAuthenticatingProxyStageHandler urlParse h d ep
              else gateway.newProxyStageHandler urlParse h d ep)
      as [[h1 d1] [e|sh]] eqn:E.
    + apply compile_err in E as [-> ->]. intros [= <- <- <-]. by left.
    + apply compile_ok in E as (l & _ & _ & _ & _ & Hcase).
      intros Hloop Hn. destruct (IH _ _ _ _ _ _ _ Hloop Hn) as [H1|(ep' & Hin & Ht)].
      * destruct Hcase as [(_ & _ & Ht)|(_ & _ & _ & Ht)];
          rewrite Ht in H1; [by left|]. destruct (decide (gateway.transName ep = n)) as [<-|Hne].
        -- right. exists ep. split; [apply list_elem_of_here|done].
        -- rewrite lookup_insert_ne in H1 by done. by left.
      * right. exists ep'. split; [by apply list_elem_of_further|done].
Qed.

(** A route stored under a name that no later endpoint bears stays. *)
Lemma configureLoop_keeps eps : forall h d rs h' d' rs' k rt,
  gateway.configureLoop urlParse h d rs eps = (h', d', inr rs') ->
  rs !! k = Some rt ->
  k ∉ (config.Name <$> eps) ->
  rs' !! k = Some rt.
Proof.
  induction eps as [|ep eps IH]; intros h d rs h' d' rs' k rt; simpl.
  - by intros [= <- <- <-].
  - destruct (if config.Authenticate ep
              then gateway.newAuthenticatingProxyStageHandler urlParse h d ep
              else gateway.newProxyStageHandler urlParse h d ep)
      as [[h1 d1] [e|sh]] eqn:E; [done|].
    intros Hloop Hk Hnin. apply not_elem_of_cons in Hnin as [Hne Hnin].
    eapply IH; [done| |done]. by rewrite lookup_insert_ne.
Qed.

(** With unique names every endpoint ends up with its own route. *)
Lemma configureLoop_routed eps : forall h d rs h' d' rs' ep,
  gateway.configureLoop urlParse h d rs eps = (h', d', inr rs') ->
  NoDup (config.Name <$> eps) ->
  ep ∈ eps ->
  exists rt, rs' !! config.Name ep = Some rt /\ gateway.Endpoint rt = ep.
Proof.
  induction eps as [|ep0 eps IH]; intros h d rs h' d' rs' ep; simpl.
  - intros _ _ Hin. by apply elem_of_nil in Hin.
  - destruct (if config.Authenticate ep0
              then gateway.newAuthenticatingProxyStageHandler urlParse h d ep0
              else gateway.newProxyStageHandler urlParse h d ep0)
      as [[h1 d1] [e|sh]] eqn:E; [done|].
    intros Hloop Hnd Hin.
    pose proof (NoDup_cons_1_1 _ _ Hnd) as Hnin. apply NoDup_cons_1_2 in Hnd.
    apply elem_of_cons in Hin as [->|Hin].
    + eexists. split.
      * eapply configureLoop_keeps; [done| |done]. apply lookup_insert_eq.
      * simpl. apply Copy_id.
    + by eapply IH.
Qed.

(** C6 (amended): after [Build] on a fresh builder, whatever the endpoint
    list: the
    heap of transport handles and the transports map agree (as many handles
    were created as there are names, each name holds its own handle), every
    name is the effective transport name of a listed endpoint, and any two
    compiled routes whose endpoints have the same effective transport name
    hold the same handle pointer, which is the one kept under that name.
    With unique endpoint names this applies to every two listed endpoints
    once the route table is assigned; in particular to an endpoint that
    declares the name of another as shared transport when that other
    endpoint declares no shared transport itself: both hold the handle kept
    under the other's name. *)
Theorem transport_created_once_and_shared (b : gateway.DispatcherBuilder) :
  gateway.routes (gateway.dispatcher b) = None ->
  let h := (gateway.Build urlParse b).1 in
  let d := (gateway.Build urlParse b).2 in
  gateway.transportsOk h (gateway.transports d)
  /\ (forall n, is_Some (gateway.transports d !! n) ->
        exists ep, ep ∈ gateway.endpoints b /\ gateway.transName ep = n)
  /\ (forall rs k1 k2 r1 r2,
        gateway.routes d = Some rs ->
        rs !! k1 = Some r1 -> rs !! k2 = Some r2 ->
        gateway.transName (gateway.Endpoint r1) =
          gateway.transName (gateway.Endpoint r2) ->
        exists l,
          gateway.chainTransport (gateway.RouteStageHandler r1) = Some l
          /\ gateway.chainTransport (gateway.RouteStageHandler r2) = Some l
          /\ gateway.transports d !! gateway.transName (gateway.Endpoint r1) = Some l
          /\ is_Some (h !! l))
  /\ (forall rs e1 e2,
        gateway.routes d = Some rs ->
        NoDup (config.Name <$> gateway.endpoints b) ->
        e1 ∈ gateway.endpoints b -> e2 ∈ gateway.endpoints b ->
        gateway.transName e1 = gateway.transName e2 ->
        exists r1 r2 l,
          rs !! config.Name e1 = Some r1 /\ gateway.Endpoint r1 = e1
          /\ rs !! config.Name e2 = Some r2 /\ gateway.Endpoint r2 = e2
          /\ gateway.chainTransport (gateway.RouteStageHandler r1) = Some l
          /\ gateway.chainTransport (gateway.RouteStageHandler r2) = Some l)
  /\ (forall rs e1 e2,
        gateway.routes d = Some rs ->
        NoDup (config.Name <$> gateway.endpoints b) ->
        e1 ∈ gateway.endpoints b -> e2 ∈ gateway.endpoints b ->
        config.SharedTransport e1 = config.Name e2 ->
        config.Name e2 <> "" ->
        config.SharedTransport e2 = "" ->
        exists r1 r2 l,
          rs !! config.Name e1 = Some r1 /\ gateway.Endpoint r1 = e1
          /\ rs !! config.Name e2 = Some r2 /\ gateway.Endpoint r2 = e2
          /\ gateway.chainTransport (gateway.RouteStageHandler r1) = Some l
          /\ gateway.chainTransport (gateway.RouteStageHandler r2) = Some l
          /\ gateway.transports d !! config.Name e2 = Some l).
Proof.
  intros Hnil h d. subst h d.
  destruct (gateway.Build urlParse b) as [h d] eqn:EB. simpl.
  pose proof (Build_inv _ _ _ _ EB) as (Hok & _ & Hinv).
  assert (forall rs k1 k2 r1 r2,
    gateway.routes d = Some rs ->
    rs !! k1 = Some r1 -> rs !! k2 = Some r2 ->
    gateway.transName (gateway.Endpoint r1) =
      gateway.transName (gateway.Endpoint r2) ->
    exists l,
      gateway.chainTransport (gateway.RouteStageHandler r1) = Some l
      /\ gateway.chainTransport (gateway.RouteStageHandler r2) = Some l
      /\ gateway.transports d !! gateway.transName (gateway.Endpoint r1) = Some l
      /\ is_Some (h !! l)) as Hshare.
  { intros rs k1 k2 r1 r2 Hrs H1 H2 Heq.
    destruct (Hinv Hnil rs Hrs) as [Hr _].
    destruct (Hr k1 r1 H1) as (l1 & Ht1 & Hc1).
    destruct (Hr k2 r2 H2) as (l2 & Ht2 & Hc2).
    rewrite <- Heq, Ht1 in Ht2. injection Ht2 as <-.
    exists l1. repeat split; try done.
    apply lookup_lt_is_Some. destruct Hok as (Hb & _). by eapply Hb. }
  unfold gateway.Build, gateway.configureRoutes in EB.
  destruct (gateway.configureLoop urlParse [] _ ∅ (gateway.endpoints b))
    as [[h1 d1] res] eqn:E.
  split; [done|]. split; [|split; [done|]].
  - intros n Hn.
    assert (gateway.transports d = gateway.transports d1) as Ht.
    { destruct res; by injection EB as <- <-. }
    rewrite Ht in Hn.
    destruct (configureLoop_names _ _ _ _ _ _ _ _ E Hn) as [H0|H1]; [|done].
    simpl in H0. rewrite lookup_empty in H0. by destruct H0.
  - assert (forall rs e1 e2,
      gateway.routes d = Some rs ->
      NoDup (config.Name <$> gateway.endpoints b) ->
      e1 ∈ gateway.endpoints b -> e2 ∈ gateway.endpoints b ->
      gateway.transName e1 = gateway.transName e2 ->
      exists r1 r2 l,
        rs !! config.Name e1 = Some r1 /\ gateway.Endpoint r1 = e1
        /\ rs !! config.Name e2 = Some r2 /\ gateway.Endpoint r2 = e2
        /\ gateway.chainTransport (gateway.RouteStageHandler r1) = Some l
        /\ gateway.chainTransport (gateway.RouteStageHandler r2) = Some l
        /\ gateway.transports d !! gateway.transName e2 = Some l) as Hpair.
    { intros rs e1 e2 Hrs Hnd Hin1 Hin2 Heq.
      destruct res as [e|rs1]; injection EB as <- <-.
      + apply configureLoop_routes in E as [Hr _]. simpl in *. congruence.
      + simpl in Hrs. injection Hrs as <-.
        destruct (configureLoop_routed _ _ _ _ _ _ _ e1 E Hnd Hin1)
          as (r1 & Hk1 & He1).
        destruct (configureLoop_routed _ _ _ _ _ _ _ e2 E Hnd Hin2)
          as (r2 & Hk2 & He2).
        destruct (Hshare rs1 _ _ r1 r2 eq_refl Hk1 Hk2) as (l & ? & ? & Hl & _).
        { by rewrite He1, He2. }
        exists r1, r2, l. repeat split; try done.
        by rewrite <- Heq, <- He1. }
    split.
    + intros rs e1 e2 Hrs Hnd Hin1 Hin2 Heq.
      destruct (Hpair rs e1 e2 Hrs Hnd Hin1 Hin2 Heq)
        as (r1 & r2 & l & ? & ? & ? & ? & ? & ? & _).
      by exists r1, r2, l.
    + intros rs e1 e2 Hrs Hnd Hin1 Hin2 Hdecl Hname Hown.
      assert (gateway.transName e2 = config.Name e2) as Ht2.
      { unfold gateway.transName. by rewrite Hown. }
      assert (gateway.transName e1 = config.Name e2) as Ht1.
      { unfold gateway.transName. rewrite Hdecl.
        by destruct (String.eqb_spec (config.Name e2) ""). }
      destruct (Hpair rs e1 e2 Hrs Hnd Hin1 Hin2) as (r1 & r2 & l & H);
        [by rewrite Ht1, Ht2|].
      rewrite Ht2 in H. by exists r1, r2, l.
Qed.

End TransportFacts.

(** ** The circuit-breaker-protected transport *)

Section RoundTripFacts.
Variable send : http.Request -> option http.Response * option string.
Variable failuresToOpen : nat.
Implicit Types (transport : gateway.CbTransport) (request : http.Request).

Lemma guarded_spec request :
  gateway.guarded send request tt =
    match send request with
    | (Some resp, e) =>
        if gateway.is5xx resp then (None, Some "500 error for service endpoint")
        else (Some resp, e)
    | (None, e) => (None, e)
    end.
Proof.
  unfold gateway.guarded, gateway.is5xx.
  by destruct (send request) as [[resp|] e].
Qed.

(** The closure reports an error exactly for the failed calls. *)
Lemma guarded_error request :
  bool_decide (is_Some (gateway.guarded send request tt).2) =
    gateway.failedCall (send request).
Proof.
  rewrite guarded_spec. unfold gateway.failedCall.
  destruct (send request) as [[resp|] e]; [|done].
  by destruct (gateway.is5xx resp).
Qed.

(** Without a breaker the call passes straight through. *)
Lemma RoundTrip_no_breaker transport request :
  gateway.cbtCircuitBreaker transport = None ->
  gateway.RoundTrip send failuresToOpen transport request =
    (send request, transport).
Proof. intros H. unfold gateway.RoundTrip. by rewrite H. Qed.

(** C2 (amended): with a breaker that is Closed, a call that ends in a
    network-level error or in a 5xx response increments the failure counter
    and any other outcome leaves it; a response with a status outside
    500..599, and an outcome without a response, is returned as the
    underlying transport produced it; a 5xx response is not returned:
    [RoundTrip] gives no response and the error
    "500 error for service endpoint". *)
Theorem RoundTrip_closed transport cb request :
  gateway.cbtCircuitBreaker transport = Some cb ->
  gobreaker.state cb = gobreaker.StateClosed ->
  let out := send request in
  let res := (gateway.RoundTrip send failuresToOpen transport request).1 in
  let transport' := (gateway.RoundTrip send failuresToOpen transport request).2 in
  (exists cb', gateway.cbtCircuitBreaker transport' = Some cb'
     /\ gobreaker.failures cb' =
          if gateway.failedCall out then S (gobreaker.failures cb)
          else gobreaker.failures cb)
  /\ (forall resp, out.1 = Some resp -> gateway.is5xx resp = false -> res = out)
  /\ (out.1 = None -> res = out)
  /\ (forall resp, out.1 = Some resp -> gateway.is5xx resp = true ->
        res = (None, Some "500 error for service endpoint")).
Proof.
  intros Hcb Hst out res transport'. subst out res transport'.
  unfold gateway.RoundTrip. rewrite Hcb.
  unfold gobreaker.Execute. rewrite Hst.
  pose proof (guarded_error request) as Herr.
  rewrite guarded_spec in *.
  destruct (send request) as [[resp|] [e|]]; simpl in *.
  - destruct (gateway.is5xx resp) eqn:E5; simpl.
    + split; [by eexists|]. split; [by intros ? [= <-]; congruence|].
      split; [done|]. done.
    + split; [by eexists|]. split; [done|]. split; [done|].
      intros ? [= <-]. congruence.
  - destruct (gateway.is5xx resp) eqn:E5; simpl.
    + split; [by eexists|]. split; [by intros ? [= <-]; congruence|].
      split; [done|]. done.
    + split; [by eexists|]. split; [done|]. split; [done|].
      intros ? [= <-]. congruence.
  - split; [by eexists|]. done.
  - split; [by eexists|]. done.
Qed.

End RoundTripFacts.

Lemma RoundTrip_closed_witness :
  (gateway.RoundTrip (fun _ => (Some Demo.unavailable, None)) 10
     (gateway.newCbTransport "service1" Demo.zeroProxy (Some Demo.breakerConfig))
     (Demo.request "/service1/x" None)).1
  = (None, Some "500 error for service endpoint").
Proof.
  eapply (RoundTrip_closed (fun _ => (Some Demo.unavailable, None)) 10
            (gateway.newCbTransport "service1" Demo.zeroProxy (Some Demo.breakerConfig))).
  - reflexivity.
  - reflexivity.
  - reflexivity.
  - reflexivity.
Defined.

(** The breaker of the model through its states, with [failuresToOpen = 2]:
    two 503 answers open it, the next call is rejected, and after the
    timeout a successful trial call closes it again. *)
Example breaker_round :
  let bad := fun _ : http.Request => (Some Demo.unavailable, None) in
  let good := fun _ : http.Request =>
    (Some {| http.StatusCode := 200; http.Body := "ok" |}, None) in
  let request := Demo.request "/service1/x" None in
  let t0 := gateway.newCbTransport "service1" Demo.zeroProxy (Some Demo.breakerConfig) in
  let t1 := (gateway.RoundTrip bad 2 t0 request).2 in
  let t2 := (gateway.RoundTrip bad 2 t1 request).2 in
  let t3 := {| gateway.cbtTransport := gateway.cbtTransport t2;
               gateway.cbtCircuitBreaker :=
                 gobreaker.afterTimeout <$> gateway.cbtCircuitBreaker t2 |} in
  (gobreaker.state <$> gateway.cbtCircuitBreaker t1) = Some gobreaker.StateClosed
  /\ (gobreaker.state <$> gateway.cbtCircuitBreaker t2) = Some gobreaker.StateOpen
  /\ (gateway.RoundTrip good 2 t2 request).1 = (None, Some gobreaker.ErrOpenState)
  /\ (gateway.RoundTrip good 2 t3 request).1
       = (Some {| http.StatusCode := 200; http.Body := "ok" |}, None)
  /\ (gobreaker.state <$> gateway.cbtCircuitBreaker
         (gateway.RoundTrip good 2 t3 request).2) = Some gobreaker.StateClosed.
Proof. repeat split; reflexivity. Qed.

(** C2, as stated, fails: the transport of "service1" with its breaker
    Closed, and a backend that answers 503.  The underlying transport
    produces that response without error, and [RoundTrip] returns no
    response at all. *)
Lemma RoundTrip_5xx_not_passed_through :
  let send := fun _ : http.Request => (Some Demo.unavailable, None) in
  let transport :=
    gateway.newCbTransport "service1" Demo.zeroProxy (Some Demo.breakerConfig) in
  let request := Demo.request "/service1/x" None in
  (gobreaker.state <$> gateway.cbtCircuitBreaker transport)
    = Some gobreaker.StateClosed
  /\ send request = (Some Demo.unavailable, None)
  /\ (gateway.RoundTrip send 10 transport request).1
       = (None, Some "500 error for service endpoint")
  /\ (gateway.RoundTrip send 10 transport request).1 <> send request.
Proof. repeat split; try reflexivity. discriminate. Qed.

(** ** The authentication worker pool *)

Section PoolFacts.
Context {Token : Type}.
Variable verify : string -> auth.AuthReturn Token.
Local Abbreviation PoolState := (auth.PoolState (Token := Token)).
Local Abbreviation fire := (auth.fire verify).
Local Abbreviation step := (auth.step verify).
Implicit Types (s : PoolState) (a : auth.Action).

Lemma sum_list_with_insert {A} (f : A -> nat) (l : list A) i x y :
  l !! i = Some x ->
  (sum_list_with f (<[i := y]> l) + f x = sum_list_with f l + f y)%nat.
Proof.
  revert i. induction l as [|z l IH]; intros [|i]; simpl; try done.
  - intros [= ->]. lia.
  - intros H. specialize (IH i H). lia.
Qed.

(** Every step uses up some of the steps left. *)
Lemma fire_stepsLeft a s s' :
  fire a s = Some s' -> (auth.stepsLeft s' < auth.stepsLeft s)%nat.
Proof.
  unfold auth.fire, auth.stepsLeft. intros H.
  repeat case_match; simplify_eq; simpl;
    repeat match goal with
    | H : ?l !! ?i = Some ?x |- context [sum_list_with ?f (<[?i := ?y]> ?l)] =>
        let E := fresh in
        pose proof (sum_list_with_insert f l i x y H) as E; simpl in E; revert E;
        generalize (sum_list_with f (<[i := y]> l)); clear H
    end; intros; lia.
Qed.

Lemma inFlight_le s : (auth.inFlight s <= length (auth.workers s))%nat.
Proof. apply length_filter. Qed.

Context (numWorkers : nat) (tokens : list string).
Local Abbreviation Consistent := (auth.Consistent verify numWorkers tokens).

Ltac lookup_init :=
  repeat match goal with
  | H : replicate _ _ !! _ = Some _ |- _ => apply lookup_replicate in H as [? ?]
  | H : (_ <$> _) !! _ = Some _ |- _ =>
      rewrite list_lookup_fmap in H; apply fmap_Some in H as (? & ? & ?)
  | H : _ ∈ [] |- _ => by apply elem_of_nil in H
  end; simplify_eq.

Lemma Consistent_init :
  Consistent (auth.NewPooledJWTAuthenticator numWorkers tokens).
Proof.
  split; simpl; intros; lookup_init; try done.
  - apply length_replicate.
  - apply length_fmap.
  - apply NoDup_nil_2.
  - apply NoDup_nil_2.
  - split; [intros H; lookup_init|intros [[? H]|(? & ? & H)]; lookup_init].
Qed.

(** Lookups in a list of goroutines after one of them has moved. *)
Ltac moved :=
  repeat match goal with
  | H : <[?i := _]> ?l !! ?j = Some _ |- _ =>
      apply list_lookup_insert_Some in H as [(? & ? & ?)|[? H]]
  end; simplify_eq.

Ltac unmoved :=
  repeat first
    [ rewrite list_lookup_insert_ne by congruence
    | rewrite list_lookup_insert_eq by (eapply lookup_lt_Some; eassumption) ].

Lemma Consistent_Register i s s' :
  Consistent s -> fire (auth.Register i) s = Some s' -> Consistent s'.
Proof.
  intros I H. simpl in H. repeat case_match; simplify_eq.
  destruct I. split; simpl; try done.
  - by rewrite length_insert.
  - apply list.NoDup_app. split; [done|]. split; [|apply NoDup_singleton].
    intros x Hx ->%list_elem_of_singleton.
    apply inv_pool_select in Hx. congruence.
  - intros i0 [Hin| ->%list_elem_of_singleton]%elem_of_app.
    + apply inv_pool_select in Hin. destruct (decide (i = i0)); [congruence|].
      by unmoved.
    + by unmoved.
  - intros c token i0 Hc. destruct (inv_submit _ _ _ Hc) as [Hw Hn].
    destruct (decide (i = i0)); [congruence|]. unmoved. split; [done|].
    rewrite elem_of_app, list_elem_of_singleton. intros [?|?]; [done|congruence].
  - intros i0 Hi0. rewrite elem_of_app, list_elem_of_singleton. moved.
    + by left; right.
    + destruct (inv_select _ Hi0) as [?|?]; [by left; left|by right].
  - intros; moved; eauto.
  - intros; moved; eauto.
  - intros c Hc. destruct (inv_await _ Hc) as (i0 & w & Hw & Hh).
    exists i0, w. split; [|done]. destruct (decide (i = i0)); [|by unmoved].
    subst. rewrite H0 in Hw. by simplify_eq.
  - intros; moved; eauto.
  - intros; moved; eauto.
  - intros c. rewrite inv_log. split; (intros [?|(i0 & ret & Hr)]; [by left|right]).
    + exists i0, ret. destruct (decide (i = i0)); [congruence|]. by unmoved.
    + moved. eauto.
Qed.

Lemma Consistent_Acquire c s s' :
  Consistent s -> fire (auth.Acquire c) s = Some s' -> Consistent s'.
Proof.
  intros I H. simpl in H. repeat case_match; simplify_eq.
  destruct I. split; simpl; try done.
  all: try (solve [intros; moved; eauto]).
  - by rewrite length_insert.
  - rewrite H2 in inv_pool_nodup. by apply NoDup_cons_1_2 in inv_pool_nodup.
  - intros i Hi. apply inv_pool_select. rewrite H2. by apply list_elem_of_further.
  - rewrite H2 in *. intros c0 token0 i Hc0. moved.
    + split; [apply inv_pool_select, list_elem_of_here|].
      by apply NoDup_cons_1_1.
    + destruct (inv_submit _ _ _ Hc0) as [Hw Hn].
      by apply not_elem_of_cons in Hn as [_ Hn].
  - rewrite H2 in *. intros c0 c' token0 token' i Hc0 Hc'. moved; try done.
    all: try (exfalso; match goal with
              | H : auth.callers _ !! _ = Some (auth.CSubmit _ _) |- _ =>
                  destruct (inv_submit _ _ _ H) as [_ []]; apply list_elem_of_here
              end).
    by eapply inv_submit_inj.
  - rewrite H2 in *. intros i Hi.
    destruct (inv_select i Hi) as [Hin|(c0 & token0 & Hc0)].
    + apply elem_of_cons in Hin as [->|Hin]; [|by left].
      right. exists c, token. by unmoved.
    + right. exists c0, token0.
      destruct (decide (c = c0)); [congruence|]. by unmoved.
  - intros i w c0 Hw Hh. pose proof (inv_holds _ _ _ Hw Hh).
    destruct (decide (c = c0)); [congruence|]. by unmoved.
  - intros c0. rewrite inv_log.
    split; (intros [[ret Hr]|?]; [left; exists ret|by right]).
    + destruct (decide (c = c0)); [congruence|]. by unmoved.
    + by moved.
Qed.

Lemma Consistent_Handoff c s s' :
  Consistent s -> fire (auth.Handoff c) s = Some s' -> Consistent s'.
Proof.
  intros I H. simpl in H. repeat case_match; simplify_eq.
  destruct I. split; simpl; try done.
  all: try (solve [intros; moved; eauto]).
  - by rewrite length_insert.
  - by rewrite length_insert.
  - intros i0 Hi0. destruct (inv_submit _ _ _ H0) as [_ Hn].
    destruct (decide (i = i0)) as [->|]; [done|]. unmoved. by apply inv_pool_select.
  - intros c0 token0 i0 Hc0. moved.
    destruct (inv_submit _ _ _ Hc0) as [Hw Hn]. split; [|done].
    destruct (decide (i = i0)) as [->|]; [|by unmoved].
    by pose proof (inv_submit_inj _ _ _ _ _ H0 Hc0).
  - intros i0 Hi0. moved.
    destruct (inv_select _ Hi0) as [?|(c0 & token0 & Hc0)]; [by left|].
    right. exists c0, token0.
    destruct (decide (c = c0)) as [->|]; [congruence|]. by unmoved.
  - intros i0 w c0 Hw Hh. moved.
    + simpl in Hh. subst. by unmoved.
    + pose proof (inv_holds _ _ _ Hw Hh).
      destruct (decide (c = c0)) as [->|]; [congruence|]. by unmoved.
  - intros i0 i' w w' c0 Hw Hw' Hh Hh'. moved; simpl in *; subst; try done.
    all: try (by eapply inv_holds_inj).
    all: exfalso; match goal with
         | Hw : auth.workers _ !! _ = Some ?w, Hh : auth.holds ?w _ |- _ =>
             pose proof (inv_holds _ _ _ Hw Hh); congruence
         end.
  - intros c0 Hc0. moved.
    + exists i, (auth.WAuthenticate c0 token). by unmoved.
    + destruct (inv_await _ Hc0) as (i0 & w & Hw & Hh). exists i0, w.
      split; [|done]. destruct (decide (i = i0)) as [->|]; [|by unmoved].
      rewrite H2 in Hw. by simplify_eq.
  - intros c0. rewrite inv_log.
    split; (intros [[ret Hr]|(i0 & ret & Hr)]; [left; exists ret|right; exists i0, ret]).
    + destruct (decide (c = c0)) as [->|]; [congruence|]. by unmoved.
    + destruct (decide (i = i0)) as [->|]; [congruence|]. by unmoved.
    + by moved.
    + by moved.
Qed.

Lemma Consistent_Verify i s s' :
  Consistent s -> fire (auth.Verify i) s = Some s' -> Consistent s'.
Proof.
  intros I H. simpl in H. repeat case_match; simplify_eq.
  destruct I. split; simpl; try done.
  all: try (solve [intros; moved; eauto]).
  - by rewrite length_insert.
  - intros i0 Hi0. apply inv_pool_select in Hi0.
    destruct (decide (i = i0)) as [->|]; [congruence|]. by unmoved.
  - intros c0 token i0 Hc0. destruct (inv_submit _ _ _ Hc0) as [Hw Hn].
    split; [|done]. destruct (decide (i = i0)) as [->|]; [congruence|]. by unmoved.
  - intros c0 Hc0. destruct (inv_await _ Hc0) as (i0 & w & Hw & Hh).
    destruct (decide (i = i0)) as [->|].
    + rewrite H0 in Hw. simplify_eq. simpl in Hh. subst.
      exists i0, (auth.WRespond c0 (verify payload)). by unmoved.
    + exists i0, w. by unmoved.
  - apply list.NoDup_app. split; [done|]. split; [|apply NoDup_singleton].
    intros c0 Hc0 ->%list_elem_of_singleton.
    pose proof (inv_holds _ _ _ H0 eq_refl) as Hc.
    apply inv_log in Hc0 as [[ret Hr]|(i0 & ret & Hr)]; [congruence|].
    pose proof (inv_holds_inj _ _ _ _ c H0 Hr eq_refl eq_refl). congruence.
  - intros c0. rewrite elem_of_app, inv_log, list_elem_of_singleton. split.
    + intros [[?|(i0 & ret & Hr)]| ->]; [by left|right..].
      * exists i0, ret. destruct (decide (i = i0)) as [->|]; [congruence|].
        by unmoved.
      * exists i, (verify payload). by unmoved.
    + intros [?|(i0 & ret & Hr)]; [by left; left|]. moved; [by right|].
      left. right. eauto.
Qed.

Lemma Consistent_Respond i s s' :
  Consistent s -> fire (auth.Respond i) s = Some s' -> Consistent s'.
Proof.
  intros I H. simpl in H. repeat case_match; simplify_eq.
  destruct I. split; simpl; try done.
  all: try (solve [intros; moved; eauto]).
  - by rewrite length_insert.
  - by rewrite length_insert.
  - intros i0 Hi0. apply inv_pool_select in Hi0.
    destruct (decide (i = i0)) as [->|]; [congruence|]. by unmoved.
  - intros c0 token i0 Hc0. moved.
    destruct (inv_submit _ _ _ Hc0) as [Hw Hn]. split; [|done].
    destruct (decide (i = i0)) as [->|]; [congruence|]. by unmoved.
  - intros i0 Hi0. moved.
    destruct (inv_select _ Hi0) as [?|(c0 & token & Hc0)]; [by left|].
    right. exists c0, token.
    destruct (decide (c = c0)) as [->|]; [congruence|]. by unmoved.
  - intros i0 w c0 Hw Hh. moved; [done|].
    pose proof (inv_holds _ _ _ Hw Hh).
    destruct (decide (c = c0)) as [->|]; [|by unmoved].
    by pose proof (inv_holds_inj _ _ _ _ c0 H0 Hw eq_refl Hh).
  - intros c0 Hc0. moved.
    destruct (inv_await _ Hc0) as (i0 & w & Hw & Hh). exists i0, w.
    split; [|done]. destruct (decide (i = i0)) as [->|]; [|by unmoved].
    rewrite H0 in Hw. by simplify_eq.
  - intros c0. rewrite inv_log. split.
    + intros [[ret0 Hr]|(i0 & ret0 & Hr)].
      * left. exists ret0. destruct (decide (c = c0)) as [->|]; [congruence|].
        by unmoved.
      * destruct (decide (i = i0)) as [->|].
        -- rewrite H0 in Hr. simplify_eq. left. exists ret0. by unmoved.
        -- right. exists i0, ret0. by unmoved.
    + intros [[ret0 Hr]|(i0 & ret0 & Hr)]; moved; eauto.
Qed.

Lemma Consistent_fire a s s' :
  Consistent s -> fire a s = Some s' -> Consistent s'.
Proof.
  destruct a; eauto using Consistent_Register, Consistent_Acquire,
    Consistent_Handoff, Consistent_Verify, Consistent_Respond.
Qed.

Lemma Consistent_rtc s s' : Consistent s -> rtc step s s' -> Consistent s'.
Proof.
  intros I H. induction H as [|s1 s2 s3 [a Ha] _ IH]; [done|].
  eapply IH, Consistent_fire; eauto.
Qed.

Lemma runSchedule_rtc sched s s' :
  auth.runSchedule verify sched s = Some s' -> rtc step s s'.
Proof.
  revert s. induction sched as [|a sched IH]; intros s; simpl.
  - intros [= ->]. apply rtc_refl.
  - destruct (fire a s) as [s1|] eqn:E; [|done].
    intros H. eapply rtc_l; [by exists a|by apply IH].
Qed.

(** While a call has not returned, some goroutine can move. *)
Lemma Consistent_progress s c st :
  Consistent s -> (1 <= numWorkers)%nat ->
  auth.callers s !! c = Some st -> auth.returned st = false ->
  exists a s', fire a s = Some s'.
Proof.
  intros I HN Hc Hst.
  assert (forall i w c', auth.workers s !! i = Some w -> auth.holds w c' ->
            exists a s', fire a s = Some s') as Hheld.
  { intros i w c' Hw Hh. pose proof (auth.inv_holds _ _ _ _ I _ _ _ Hw Hh) as Hc'.
    destruct w as [| |c0 payload|c0 ret]; simpl in Hh; try done; subst.
    - exists (auth.Verify i). simpl. rewrite Hw. by eexists.
    - exists (auth.Respond i). simpl. rewrite Hw, Hc'. by eexists. }
  destruct st as [token|token i| |ret]; [| | |done].
  - destruct (auth.workerPool s) as [|i rest] eqn:Ep.
    + destruct (lookup_lt_is_Some_2 (auth.workers s) 0) as [w Hw].
      { rewrite (auth.inv_workers _ _ _ _ I). lia. }
      destruct w as [| |c0 payload|c0 ret].
      * exists (auth.Register 0). simpl. rewrite Hw, Ep. simpl.
        rewrite (auth.inv_capacity _ _ _ _ I).
        destruct (decide (0 < numWorkers)%nat); [by eexists|lia].
      * destruct (auth.inv_select _ _ _ _ I _ Hw) as [Hin|(c' & token' & Hc')].
        -- rewrite Ep in Hin. by apply elem_of_nil in Hin.
        -- exists (auth.Handoff c'). simpl. rewrite Hc', Hw. by eexists.
      * by eapply Hheld.
      * by eapply Hheld.
    + exists (auth.Acquire c). simpl. rewrite Hc, Ep. by eexists.
  - destruct (auth.inv_submit _ _ _ _ I _ _ _ Hc) as [Hw _].
    exists (auth.Handoff c). simpl. rewrite Hc, Hw. by eexists.
  - destruct (auth.inv_await _ _ _ _ I _ Hc) as (i & w & Hw & Hh).
    by eapply Hheld.
Qed.

Lemma forallb_false_lookup {A} (f : A -> bool) (l : list A) :
  forallb f l = false -> exists i x, l !! i = Some x /\ f x = false.
Proof.
  induction l as [|x l IH]; simpl; [done|].
  destruct (f x) eqn:E; simpl.
  - intros H. destruct (IH H) as (i & y & Hi & Hy). by exists (S i), y.
  - intros _. by exists 0%nat, x.
Qed.

(** From every consistent state the calls can all be brought to return. *)
Lemma Consistent_completes n : forall s,
  (auth.stepsLeft s <= n)%nat -> Consistent s -> (1 <= numWorkers)%nat ->
  exists s', rtc step s s' /\ forallb auth.returned (auth.callers s') = true.
Proof.
  induction n as [|n IH]; intros s Hn I HN;
    destruct (forallb auth.returned (auth.callers s)) eqn:E;
    try (by exists s; split; [apply rtc_refl|]);
    destruct (forallb_false_lookup _ _ E) as (c & st & Hc & Hst);
    destruct (Consistent_progress s c st I HN Hc Hst) as (a & s1 & Ha);
    pose proof (fire_stepsLeft _ _ _ Ha) as Hlt.
  - lia.
  - destruct (IH s1) as (s' & Hrtc & Hdone); [lia|by eapply Consistent_fire|done|].
    exists s'. split; [|done]. eapply rtc_l; [by exists a|done].
Qed.

(** C8 (amended): a pool of [numWorkers >= 1] workers and any number of
    concurrent calls, in any state the system can reach.  At most
    [numWorkers] verifications are in flight.  A job is with at most one
    worker, and the job of a call that waits for its answer is with one; no
    job is passed to the verifier twice, and the job of a call that has
    returned was passed to it.  A call that has returned has the verifier's
    answer for its own token.  Every step uses up one of finitely many steps
    left ([numWorkers + 5 * k] at the start), either all calls have returned
    or some goroutine can move, and the calls can all be brought to return:
    every run ends, and it ends with all calls returned. *)
Theorem pool_bounded_and_complete s :
  (1 <= numWorkers)%nat ->
  rtc step (auth.NewPooledJWTAuthenticator numWorkers tokens) s ->
  (auth.inFlight s <= numWorkers)%nat
  /\ (forall c i i' w w',
        auth.workers s !! i = Some w -> auth.workers s !! i' = Some w' ->
        auth.holds w c -> auth.holds w' c -> i = i')
  /\ (forall c, auth.callers s !! c = Some auth.CAwait ->
        exists i w, auth.workers s !! i = Some w /\ auth.holds w c)
  /\ NoDup (auth.verifications s)
  /\ (forall c ret, auth.callers s !! c = Some (auth.CDone ret) ->
        c ∈ auth.verifications s
        /\ exists token, tokens !! c = Some token /\ ret = verify token)
  /\ length (auth.callers s) = length tokens
  /\ auth.stepsLeft (auth.NewPooledJWTAuthenticator (Token := Token) numWorkers tokens)
       = (numWorkers + 5 * length tokens)%nat
  /\ (forall s', step s s' -> (auth.stepsLeft s' < auth.stepsLeft s)%nat)
  /\ (forallb auth.returned (auth.callers s) = true \/ exists s', step s s')
  /\ (exists s', rtc step s s' /\ forallb auth.returned (auth.callers s') = true).
Proof.
  intros HN Hreach.
  pose proof (Consistent_rtc _ _ Consistent_init Hreach) as I.
  split; [rewrite <- (auth.inv_workers _ _ _ _ I); apply inFlight_le|].
  split; [intros c i i' w w'; apply (auth.inv_holds_inj _ _ _ _ I)|].
  split; [apply (auth.inv_await _ _ _ _ I)|].
  split; [apply (auth.inv_log_nodup _ _ _ _ I)|].
  split.
  { intros c ret Hc. split; [|by eapply auth.inv_done].
    apply (auth.inv_log _ _ _ _ I). left. by exists ret. }
  split; [apply (auth.inv_callers _ _ _ _ I)|].
  split.
  { unfold auth.stepsLeft. simpl. clear.
    assert (forall n, sum_list_with auth.workerWeight
              (replicate n (auth.WRegister (Token := Token))) = n) as ->.
    { induction n as [|n IH]; simpl; [done|]. by rewrite IH. }
    f_equal. induction tokens as [|t l IH]; [done|].
    rewrite fmap_cons. cbn [sum_list_with auth.callerWeight length].
    rewrite IH. lia. }
  split; [intros s' [a Ha]; by eapply fire_stepsLeft|].
  split; [|by eapply Consistent_completes].
  destruct (forallb auth.returned (auth.callers s)) eqn:E; [by left|right].
  destruct (forallb_false_lookup _ _ E) as (c & st & Hc & Hst).
  destruct (Consistent_progress s c st I HN Hc Hst) as (a & s1 & Ha).
  exists s1. by exists a.
Qed.

End PoolFacts.

(** ** The properties on the sample configuration *)

(** The endpoint list of the example for C1 passes [validateEndpoints], and
    so does the sample configuration. *)
Example svc1_valid :
  config.validateEndpoints
    [{| config.Name := "svc1"; config.Key := "service1";
        config.URL := "http://localhost:8181";
        config.Authenticate := false; config.SharedTransport := "" |}]
  = (true, None)
  /\ config.validateEndpoints [Demo.service1; Demo.service2; Demo.secure]
      = (true, None).
Proof. split; reflexivity. Qed.

(** Under its name the endpoint of the example for C1 is reached. *)
Example svc1_routed_by_name :
  gateway.Dispatch 1
    (gateway.Build Demo.urlParse
       (gateway.Endpoints (gateway.NewDispatchBuilder Demo.zeroProxy)
          [{| config.Name := "svc1"; config.Key := "service1";
              config.URL := "http://localhost:8181";
              config.Authenticate := false; config.SharedTransport := "" |}])).2
    [] (Demo.request "/svc1/anything" None)
  = gateway.Returns
      [gateway.EvServeHTTP
         {| gateway.Target := "http://localhost:8181";
            gateway.rpTransport := Some 0%nat |}
         (Demo.request "/svc1/anything" None)].
Proof. reflexivity. Qed.

Lemma Build_drops_error_witness :
  gateway.routes (gateway.Build Demo.urlParse (Demo.builder [Demo.service2; Demo.broken])).2
    = None
  /\ forall fuel w r,
       GoStrings.hasByte "/" (http.Path r) = true ->
       gateway.Dispatch fuel
         (gateway.Build Demo.urlParse (Demo.builder [Demo.service2; Demo.broken])).2 w r =
         gateway.Returns
           (w ++ [gateway.EvWriteHeader 404; gateway.EvWrite "not found: 404"]).
Proof.
  eapply (Build_drops_error Demo.urlParse (Demo.builder [Demo.service2; Demo.broken])).
  - reflexivity.
  - reflexivity.
Defined.

(** C9: the endpoint "broken" does not compile, [Build] drops the error and
    returns a dispatcher without route table, as the claim says; but the
    request with the empty path is not answered with 404: the guard before
    [pathSgmts[1]] lets it through and [Dispatch] panics. *)
Lemma Build_failed_not_always_404 :
  let b := Demo.builder [Demo.service2; Demo.broken] in
  let r := Demo.request "" None in
  is_Some (gateway.configureRoutes Demo.urlParse []
             (gateway.setTransports (gateway.dispatcher b) ∅)
             (gateway.endpoints b)).2
  /\ gateway.routes (gateway.Build Demo.urlParse b).2 = None
  /\ gateway.Dispatch 1 (gateway.Build Demo.urlParse b).2 [] r
       = gateway.Panics "index out of range [1] with length 1" []
  /\ gateway.Dispatch 1 (gateway.Build Demo.urlParse b).2 [] r
       <> gateway.Returns (gateway.sendError [] httperr.NotFound).
Proof.
  repeat split; try reflexivity.
  - by eexists.
  - discriminate.
Qed.

Lemma compiled_chain_runs_in_order_witness :
  let d := gateway.setTransports
             (gateway.dispatcher (Demo.builder [Demo.secure])) ∅ in
  let sh := gateway.Stage (gateway.AuthExec Demo.authHandler)
              (Some (gateway.Stage
                 (gateway.ProxyExec {| gateway.Target := "http://localhost:8383";
                                       gateway.rpTransport := Some 0%nat |}) None)) in
  let rt := {| gateway.Endpoint := Demo.secure; gateway.RouteStageHandler := sh |} in
  let r := Demo.request "/secure/x" (Some "Bearer k.payload") in
  gateway.stageLoop 2 rt (Some sh) [] r = gateway.specWalk (gateway.stages sh) [] r
  /\ gateway.specWalk (gateway.stages sh) [] r =
       gateway.Returns
         [gateway.EvAuthHandler r;
          gateway.EvServeHTTP {| gateway.Target := "http://localhost:8383";
                                 gateway.rpTransport := Some 0%nat |} r].
Proof.
  intros d sh rt r. split; [|reflexivity].
  eapply (compiled_chain_runs_in_order Demo.urlParse [] d Demo.secure _ _ sh rt 0 [] r).
  - right. reflexivity.
  - reflexivity.
Defined.

Lemma auth_failure_halts_chain_witness :
  let d := (gateway.Build Demo.urlParse
              (Demo.builder [Demo.service1; Demo.service2; Demo.secure])).2 in
  gateway.Dispatch 1 d [] (Demo.request "/secure/x" None) =
    gateway.Returns
      [gateway.EvAuthHandler (Demo.request "/secure/x" None);
       gateway.EvWriteHeader 401; gateway.EvWrite "unauthorized"].
Proof.
  eapply (auth_failure_halts_chain (Token := string) Demo.urlParse
            (Demo.builder [Demo.service1; Demo.service2; Demo.secure])
            Demo.authHandler _ "secure" _ 0 [] (Demo.request "/secure/x" None)).
  - reflexivity.
  - reflexivity.
  - reflexivity.
  - reflexivity.
  - reflexivity.
  - reflexivity.
  - reflexivity.
  - reflexivity.
Defined.

(** C4, as stated, fails: an auth handler that answers failure and carries
    the HTTP error with code 0 and empty message.  For a request to the
    authenticated endpoint the auth stage writes nothing at all, neither a
    carried code or message nor 403 and "forbidden"; the chain halts and
    the proxy is not served. *)
Lemma auth_failure_may_write_nothing :
  let b := gateway.Endpoints
             (gateway.AuthHandler (gateway.NewDispatchBuilder Demo.zeroProxy)
                (Some Demo.silent))
             [Demo.secure] in
  let r := Demo.request "/secure/x" None in
  config.Authenticate Demo.secure = true
  /\ Demo.silent r =
       Ok (false, Some {| httperr.Code := 0; httperr.Message := "" |})
  /\ gateway.Dispatch 2 (gateway.Build Demo.urlParse b).2 [] r =
       gateway.Returns [gateway.EvAuthHandler r]
  /\ gateway.Dispatch 2 (gateway.Build Demo.urlParse b).2 [] r <>
       gateway.Returns [gateway.EvAuthHandler r; gateway.EvWriteHeader 403;
                        gateway.EvWrite "forbidden"].
Proof. repeat split; try reflexivity. discriminate. Qed.

(** An invalid token on the authenticated endpoint: 403, "forbidden", and
    the proxy is not served. *)
Example invalid_token_forbidden :
  let d := (gateway.Build Demo.urlParse
              (Demo.builder [Demo.service1; Demo.service2; Demo.secure])).2 in
  let r := Demo.request "/secure/x" (Some "Bearer forged.payload") in
  gateway.Dispatch 2 d [] r =
    gateway.Returns
      [gateway.EvAuthHandler r; gateway.EvWriteHeader 403;
       gateway.EvWrite "forbidden"].
Proof. reflexivity. Qed.

Lemma transport_created_once_and_shared_witness :
  let b := Demo.builder [Demo.service1; Demo.service2; Demo.secure] in
  exists (rs : gmap string gateway.Route) r1 r2 l,
    gateway.routes (gateway.Build Demo.urlParse b).2 = Some rs
    /\ rs !! "service1" = Some r1 /\ gateway.Endpoint r1 = Demo.service1
    /\ rs !! "service2" = Some r2 /\ gateway.Endpoint r2 = Demo.service2
    /\ gateway.chainTransport (gateway.RouteStageHandler r1) = Some l
    /\ gateway.chainTransport (gateway.RouteStageHandler r2) = Some l.
Proof.
  intros b.
  destruct (transport_created_once_and_shared Demo.urlParse b eq_refl)
    as (_ & _ & _ & _ & Hshare).
  pose (rs := default ∅ (gateway.routes (gateway.Build Demo.urlParse b).2)).
  destruct (Hshare rs Demo.service1 Demo.service2)
    as (r1 & r2 & l & H1 & H2 & H3 & H4 & H5 & H6 & _).
  - reflexivity.
  - apply (bool_decide_unpack _). reflexivity.
  - apply list_elem_of_here.
  - apply list_elem_of_further, list_elem_of_here.
  - reflexivity.
  - discriminate.
  - reflexivity.
  - exists rs, r1, r2, l. split; [reflexivity|]. repeat split; assumption.
Defined.

(** C6, as stated, fails: [alpha] declares the name of [beta] as shared
    transport and [beta] declares the name of [alpha].  The list passes
    validation, and the two endpoints do not share: two handles are
    created, [alpha] holds the one kept under b and [beta] the one kept
    under a. *)
Lemma mutual_sharing_two_handles :
  let b := Demo.builder [Demo.alpha; Demo.beta] in
  config.validateEndpoints [Demo.alpha; Demo.beta] = (true, None)
  /\ config.SharedTransport Demo.alpha = config.Name Demo.beta
  /\ config.SharedTransport Demo.beta = config.Name Demo.alpha
  /\ length (gateway.Build Demo.urlParse b).1 = 2%nat
  /\ exists (rs : gmap string gateway.Route) r1 r2,
       gateway.routes (gateway.Build Demo.urlParse b).2 = Some rs
       /\ rs !! "a" = Some r1 /\ gateway.Endpoint r1 = Demo.alpha
       /\ rs !! "b" = Some r2 /\ gateway.Endpoint r2 = Demo.beta
       /\ gateway.chainTransport (gateway.RouteStageHandler r1) = Some 0%nat
       /\ gateway.chainTransport (gateway.RouteStageHandler r2) = Some 1%nat.
Proof.
  intros b. repeat split; try reflexivity.
  do 3 eexists. repeat split; reflexivity.
Qed.


Lemma pool_bounded_and_complete_witness :
  (auth.inFlight Demo.busy <= 1)%nat
  /\ exists s', rtc (auth.step Demo.verify) Demo.busy s'
                /\ forallb auth.returned (auth.callers s') = true.
Proof.
  destruct (pool_bounded_and_complete Demo.verify 1 Demo.tokens Demo.busy)
    as (H1 & _ & _ & _ & _ & _ & _ & _ & _ & H2).
  - apply le_n.
  - apply (runSchedule_rtc Demo.verify Demo.schedule). reflexivity.
  - split; assumption.
Defined.

(** One run of that pool to the end: both calls return, the
    first with success, the second with the bearer-scheme error. *)
Example pool_run_to_completion :
  auth.callers <$>
    auth.runSchedule Demo.verify
      [auth.Register 0; auth.Acquire 1; auth.Handoff 1; auth.Verify 0;
       auth.Respond 0; auth.Register 0; auth.Acquire 0; auth.Handoff 0;
       auth.Verify 0; auth.Respond 0; auth.Register 0]
      (auth.NewPooledJWTAuthenticator 1 Demo.tokens)
  = Some [auth.CDone ({| auth.Success := true; auth.Artifact := Some "k.payload" |}, None);
          auth.CDone ({| auth.Success := false; auth.Artifact := None |},
                      Some {| auth.msg := "not a bearer token" |})].
Proof. reflexivity. Qed.

(** C8, as stated, fails for the pool size 0: [NewPooledJWTAuthenticator]
    starts no worker, nothing is ever sent on the registration channel, and
    a call of [Authenticate] stays at its first receive: no run brings it to
    return. *)
Lemma pool_of_size_zero_never_answers :
  ~ exists s',
      rtc (auth.step Demo.verify)
        (auth.NewPooledJWTAuthenticator 0 ["Bearer k.payload"]) s'
      /\ forallb auth.returned (auth.callers s') = true.
Proof.
  intros (s' & Hrtc & Hdone).
  apply rtc_inv in Hrtc as [<-|(y & [a Ha] & _)]; [done|].
  destruct a as [i|[|c]|[|c]|i|i]; simpl in Ha; try done;
    by destruct i.
Qed.

(** * Further properties of the code *)

(** ** Endpoint validation *)

Section ValidationFacts.
Implicit Types (ep : config.Endpoint) (eps : list config.Endpoint).

Lemma string_eqb_false (a b : string) : String.eqb a b = false <-> a <> b.
Proof. apply String.eqb_neq. Qed.

Lemma valid_ok ep :
  config.valid ep = (true, None) <->
  config.Name ep <> "" /\ config.Key ep <> "" /\ config.URL ep <> "".
Proof.
  unfold config.valid.
  destruct (String.eqb_spec (config.Name ep) ""),
    (String.eqb_spec (config.Key ep) ""), (String.eqb_spec (config.URL ep) "");
    split; try done; intros (? & ? & ?); done.
Qed.

Lemma valid_error ep b e :
  config.valid ep = (b, e) -> if b then e = None else is_Some e.
Proof.
  unfold config.valid. intros H.
  repeat case_match; simplify_eq; by eauto.
Qed.

Lemma validateLoop_ok eps : forall (names keys : gset string),
  config.validateLoop eps names keys = (true, None) <->
  NoDup (config.Name <$> eps) /\ (forall n, n ∈ config.Name <$> eps -> n ∉ names)
  /\ NoDup (config.Key <$> eps) /\ (forall k, k ∈ config.Key <$> eps -> k ∉ keys)
  /\ Forall (fun ep => config.Name ep <> "" /\ config.Key ep <> ""
                       /\ config.URL ep <> ""
                       /\ config.SharedTransport ep <> config.Name ep) eps.
Proof.
  induction eps as [|ep eps IH]; intros names keys.
  - simpl. split; [intros _|done].
    repeat split; try apply NoDup_nil_2; try done; intros ? H; by apply elem_of_nil in H.
  - cbn [config.validateLoop]. rewrite !fmap_cons.
    destruct (decide (config.Name ep ∈ names)) as [Hn|Hn].
    { split; [done|]. intros (_ & H & _). destruct (H (config.Name ep)); [|done].
      apply list_elem_of_here. }
    destruct (decide (config.Key ep ∈ keys)) as [Hk|Hk].
    { split; [done|]. intros (_ & _ & _ & H & _).
      destruct (H (config.Key ep)); [|done]. apply list_elem_of_here. }
    destruct (config.valid ep) as [b e] eqn:Ev.
    pose proof (valid_error _ _ _ Ev) as He.
    destruct (negb (String.eqb (config.SharedTransport ep) "")
              && String.eqb (config.SharedTransport ep) (config.Name ep)) eqn:Es.
    { split; [done|]. intros (_ & _ & _ & _ & HF).
      apply list.Forall_cons in HF as [(_ & _ & _ & Hne) _].
      apply andb_true_iff in Es as [_ Es]. by apply String.eqb_eq in Es. }
    destruct b.
    + subst e. apply valid_ok in Ev as (E1 & E2 & E3).
      rewrite IH. rewrite !list.NoDup_cons, list.Forall_cons.
      assert (config.SharedTransport ep <> config.Name ep) as Hshare.
      { intros Heq. apply andb_false_iff in Es as [Es|Es].
        - apply negb_false_iff, String.eqb_eq in Es. congruence.
        - apply String.eqb_neq in Es. done. }
      split.
      * intros (Hnd & Hns & Hkd & Hks & HF).
        repeat split; try done.
        -- intros Hin. apply (Hns _ Hin). by apply elem_of_union_l, elem_of_singleton.
        -- intros n [->|Hin]%elem_of_cons; [done|].
           intros Hx. apply (Hns _ Hin). by apply elem_of_union_r.
        -- intros Hin. apply (Hks _ Hin). by apply elem_of_union_l, elem_of_singleton.
        -- intros k [->|Hin]%elem_of_cons; [done|].
           intros Hx. apply (Hks _ Hin). by apply elem_of_union_r.
      * intros ((Hn1 & Hnd) & Hns & (Hk1 & Hkd) & Hks & _ & HF).
        repeat split; try done.
        -- intros n Hin [->%elem_of_singleton|Hx]%elem_of_union; [done|].
           apply (Hns n); [by apply list_elem_of_further|done].
        -- intros k Hin [->%elem_of_singleton|Hx]%elem_of_union; [done|].
           apply (Hks k); [by apply list_elem_of_further|done].
    + split; [intros [=]; by destruct He|].
      intros (_ & _ & _ & _ & HF).
      apply list.Forall_cons in HF as [(E1 & E2 & E3 & _) _].
      assert (config.valid ep = (true, None)) as Hv by by apply valid_ok.
      congruence.
Qed.

Lemma validateLoop_error eps : forall (names keys : gset string) b e,
  config.validateLoop eps names keys = (b, e) ->
  if b then e = None else is_Some e.
Proof.
  induction eps as [|ep eps IH]; intros names keys b e; simpl.
  - by intros [= <- <-].
  - destruct (decide (config.Name ep ∈ names)); [intros [= <- <-]; by eauto|].
    destruct (decide (config.Key ep ∈ keys)); [intros [= <- <-]; by eauto|].
    destruct (negb _ && _); [intros [= <- <-]; by eauto|].
    destruct (config.valid ep) as [[|] e'] eqn:Ev; [apply IH|].
    intros [= <- <-]. by apply (valid_error _ _ _ Ev).
Qed.

(** [validateEndpoints] accepts a list exactly when the names are pairwise
    distinct, the keys are pairwise distinct, and every endpoint has a name,
    a key and an URL and does not name itself as shared transport; it
    returns an error text exactly when it rejects. *)
Theorem validateEndpoints_accepts eps :
  (config.validateEndpoints eps = (true, None) <->
     NoDup (config.Name <$> eps) /\ NoDup (config.Key <$> eps)
     /\ Forall (fun ep => config.Name ep <> "" /\ config.Key ep <> ""
                          /\ config.URL ep <> ""
                          /\ config.SharedTransport ep <> config.Name ep) eps)
  /\ (if (config.validateEndpoints eps).1
      then (config.validateEndpoints eps).2 = None
      else is_Some (config.validateEndpoints eps).2).
Proof.
  unfold config.validateEndpoints. split.
  - rewrite validateLoop_ok. split.
    + intros (? & _ & ? & _ & ?). done.
    + intros (? & ? & ?). repeat split; try done; intros ? _; apply not_elem_of_empty.
  - destruct (config.validateLoop eps ∅ ∅) as [b e] eqn:E.
    by apply validateLoop_error in E.
Qed.

End ValidationFacts.

(** Validation does not look at what a shared-transport name refers to:
    whatever the endpoint at position [i] of an accepted list names as its
    shared transport, other than itself, the list is still accepted. *)
Theorem validateEndpoints_any_share_target (eps : list config.Endpoint) i ep t :
  config.validateEndpoints eps = (true, None) ->
  eps !! i = Some ep ->
  t <> config.Name ep ->
  config.validateEndpoints
    (<[i := {| config.Name := config.Name ep; config.Key := config.Key ep;
               config.URL := config.URL ep;
               config.Authenticate := config.Authenticate ep;
               config.SharedTransport := t |}]> eps) = (true, None).
Proof.
  unfold config.validateEndpoints. rewrite !validateLoop_ok.
  intros (Hn & Hns & Hk & Hks & HF) Hi Ht.
  rewrite !list_fmap_insert. simpl.
  rewrite (list_insert_id (config.Name <$> eps)), (list_insert_id (config.Key <$> eps));
    try (by rewrite list_lookup_fmap, Hi).
  repeat split; try done.
  apply Forall_insert; [done|]. simpl.
  by destruct (proj1 (Forall_lookup _ _) HF i ep Hi) as (? & ? & ? & _).
Qed.

Lemma validateEndpoints_any_share_target_witness :
  config.validateEndpoints
    [{| config.Name := "service1"; config.Key := "service1";
        config.URL := "http://localhost:8181"; config.Authenticate := false;
        config.SharedTransport := "no-such-endpoint" |};
     Demo.service2] = (true, None).
Proof.
  apply (validateEndpoints_any_share_target [Demo.service1; Demo.service2] 0
           Demo.service1 "no-such-endpoint").
  - reflexivity.
  - reflexivity.
  - discriminate.
Defined.

(** ** Configuration defaults and [Parse] *)

Section ParseFacts.
Import configload.
Variable yamlUnmarshal : string -> string + option Config.
Implicit Types (c : Config).

Lemma orDefault_nonzero x d : d <> 0%Z -> orDefault x d <> 0%Z.
Proof. unfold orDefault. by destruct (Z.eqb_spec x 0). Qed.

Lemma orDefault_keep x d : x <> 0%Z -> orDefault x d = x.
Proof. unfold orDefault. by destruct (Z.eqb_spec x 0). Qed.

Lemma orDefault_idem x d : d <> 0%Z -> orDefault (orDefault x d) d = orDefault x d.
Proof. intros. by apply orDefault_keep, orDefault_nonzero. Qed.

(** What [Parse] returns when it returns a configuration. *)
Lemma Parse_Some ctnt c' e :
  Parse yamlUnmarshal ctnt = Ok (Some c', e) ->
  exists c cb,
    yamlUnmarshal ctnt = inr (Some c)
    /\ config.validateEndpoints (cfgEndpoints c) = (true, None)
    /\ cfgCircuitBreaker c = Some cb
    /\ e = None
    /\ c' = setLoggerDefaults (setGatewayDefaults
              {| cfgGateway := cfgGateway c;
                 cfgEndpoints := cfgEndpoints c;
                 cfgServer := cfgServer (setServerDefaults c);
                 cfgProxy := proxyDefaults (cfgProxy c);
                 cfgCircuitBreaker := Some (circuitBreakerDefaults cb);
                 cfgLogger := cfgLogger c |}).
Proof.
  unfold Parse. destruct (yamlUnmarshal ctnt) as [err|[c|]]; [done| |done].
  destruct (config.validateEndpoints (cfgEndpoints c)) as [[|] err] eqn:Ev; [|done].
  pose proof (validateLoop_error _ _ _ _ _ Ev) as ->.
  unfold setCircuitBreakerDefaults. simpl.
  destruct (cfgCircuitBreaker c) as [cb|] eqn:Ecb; [|done].
  intros [= <- <-]. by exists c, cb.
Qed.

(** The configuration [Parse] returns has passed validation, has a circuit
    breaker section and a logger section with a level, and no numeric
    setting of the server, the proxy, the breaker or the gateway is zero,
    with one exception: [DialTimeoutMs] is returned as it was read, zero
    included. *)
Theorem Parse_result_defaulted ctnt c' e :
  Parse yamlUnmarshal ctnt = Ok (Some c', e) ->
  e = None
  /\ config.validateEndpoints (cfgEndpoints c') = (true, None)
  /\ Port (cfgServer c') <> 0%Z
  /\ ReadTimeoutMs (cfgServer c') <> 0%Z
  /\ WriteTimeoutMs (cfgServer c') <> 0%Z
  /\ config.DialKeepAliveMs (cfgProxy c') <> 0%Z
  /\ config.MaxIdleConns (cfgProxy c') <> 0%Z
  /\ config.MaxIdleConnsPerHost (cfgProxy c') <> 0%Z
  /\ config.IdleConnTimeoutMs (cfgProxy c') <> 0%Z
  /\ config.ResponseHeaderTimeoutMs (cfgProxy c') <> 0%Z
  /\ config.TLSHandshakeTimeoutMs (cfgProxy c') <> 0%Z
  /\ config.ExpectContinueTimeoutMs (cfgProxy c') <> 0%Z
  /\ AuthWorkers (cfgGateway c') <> 0%Z
  /\ (exists cb, cfgCircuitBreaker c' = Some cb
        /\ config.MaxHalfOpenRequests cb <> 0%Z
        /\ config.ClearFailureCountIntervalMs cb <> 0%Z
        /\ config.HalfOpenAfterMs cb <> 0%Z
        /\ config.FailuresToOpen cb <> 0%Z)
  /\ (exists l, cfgLogger c' = Some l /\ Level l <> "")
  /\ (exists c, yamlUnmarshal ctnt = inr (Some c)
        /\ config.DialTimeoutMs (cfgProxy c') = config.DialTimeoutMs (cfgProxy c)).
Proof.
  intros H. apply Parse_Some in H as (c & cb & Hy & Hv & Hcb & -> & ->).
  simpl. split; [done|]. split; [done|].
  repeat (split; [by apply orDefault_nonzero|]).
  split.
  { eexists. split; [done|]. simpl. repeat split; by apply orDefault_nonzero. }
  split; [|by exists c].
  destruct (cfgLogger c) as [l|]; [|by eexists].
  destruct (String.eqb_spec (Level l) ""); by eexists.
Qed.

(** A configuration in which every setting that has a default is given is
    returned by [Parse] exactly as it was read. *)
Theorem Parse_fully_specified ctnt c cb l :
  yamlUnmarshal ctnt = inr (Some c) ->
  config.validateEndpoints (cfgEndpoints c) = (true, None) ->
  cfgCircuitBreaker c = Some cb ->
  cfgLogger c = Some l -> Level l <> "" ->
  Port (cfgServer c) <> 0%Z -> ReadTimeoutMs (cfgServer c) <> 0%Z ->
  WriteTimeoutMs (cfgServer c) <> 0%Z ->
  config.DialKeepAliveMs (cfgProxy c) <> 0%Z ->
  config.MaxIdleConns (cfgProxy c) <> 0%Z ->
  config.MaxIdleConnsPerHost (cfgProxy c) <> 0%Z ->
  config.IdleConnTimeoutMs (cfgProxy c) <> 0%Z ->
  config.ResponseHeaderTimeoutMs (cfgProxy c) <> 0%Z ->
  config.TLSHandshakeTimeoutMs (cfgProxy c) <> 0%Z ->
  config.ExpectContinueTimeoutMs (cfgProxy c) <> 0%Z ->
  config.MaxHalfOpenRequests cb <> 0%Z ->
  config.ClearFailureCountIntervalMs cb <> 0%Z ->
  config.HalfOpenAfterMs cb <> 0%Z ->
  config.FailuresToOpen cb <> 0%Z ->
  AuthWorkers (cfgGateway c) <> 0%Z ->
  Parse yamlUnmarshal ctnt = Ok (Some c, None).
Proof.
  intros Hy Hv Hcb Hl Hlevel ? ? ? Hkeep. intros.
  unfold Parse. rewrite Hy. simpl. rewrite Hv.
  unfold setCircuitBreakerDefaults. simpl. rewrite Hcb.
  unfold setLoggerDefaults, setGatewayDefaults, proxyDefaults,
    circuitBreakerDefaults. simpl. rewrite Hl.
  destruct (String.eqb_spec (Level l) ""); [done|].
  rewrite (orDefault_keep _ _ Hkeep). rewrite !orDefault_keep by done.
  destruct c as [[] ? [] [] ? ?], cb. simpl in *. by subst.
Qed.

(** [Parse] returns a configuration or an error, never both and never
    neither; and it panics in exactly two cases: the YAML is read and the
    document is null, so that the pointer is nil; or the YAML is read, the
    endpoints are accepted, and there is no circuit breaker section. *)
Theorem Parse_outcome ctnt :
  match Parse yamlUnmarshal ctnt with
  | Ok (Some _, e) => e = None
  | Ok (None, e) => is_Some e
  | Panic _ =>
      yamlUnmarshal ctnt = inr None
      \/ exists c, yamlUnmarshal ctnt = inr (Some c)
                   /\ config.validateEndpoints (cfgEndpoints c) = (true, None)
                   /\ cfgCircuitBreaker c = None
  end
  /\ (yamlUnmarshal ctnt = inr None ->
      exists m, Parse yamlUnmarshal ctnt = Panic m)
  /\ (forall c, yamlUnmarshal ctnt = inr (Some c) ->
        config.validateEndpoints (cfgEndpoints c) = (true, None) ->
        cfgCircuitBreaker c = None ->
        exists m, Parse yamlUnmarshal ctnt = Panic m).
Proof.
  unfold Parse. destruct (yamlUnmarshal ctnt) as [err|[c|]].
  - split; [by eexists|]. split; [done|done].
  - destruct (config.validateEndpoints (cfgEndpoints c)) as [[|] err] eqn:Ev.
    + pose proof (validateLoop_error _ _ _ _ _ Ev) as ->.
      unfold setCircuitBreakerDefaults. simpl.
      destruct (cfgCircuitBreaker c) as [cb|] eqn:Ecb.
      * split; [done|]. split; [done|]. intros ? [= <-] _ ?. congruence.
      * split; [right; by exists c|]. split; [done|].
        intros ? [= <-] _ _. by eexists.
    + pose proof (validateLoop_error _ _ _ _ _ Ev) as He. split; [done|].
      split; [done|]. intros ? [= <-] Hok. congruence.
  - split; [by left|]. split; [intros _; by eexists|done].
Qed.

(** Setting the defaults a second time changes nothing. *)
Theorem defaults_idempotent c (p : config.Proxy) (cb : config.CircuitBreaker) :
  setServerDefaults (setServerDefaults c) = setServerDefaults c
  /\ proxyDefaults (proxyDefaults p) = proxyDefaults p
  /\ circuitBreakerDefaults (circuitBreakerDefaults cb) = circuitBreakerDefaults cb
  /\ setGatewayDefaults (setGatewayDefaults c) = setGatewayDefaults c
  /\ setLoggerDefaults (setLoggerDefaults c) = setLoggerDefaults c.
Proof.
  unfold setServerDefaults, proxyDefaults, circuitBreakerDefaults,
    setGatewayDefaults, setLoggerDefaults. simpl.
  rewrite !orDefault_idem by done.
  repeat split; try done.
  destruct (cfgLogger c) as [l|]; simpl; [|done].
  destruct (String.eqb_spec (Level l) ""); simpl; [done|].
  by destruct (String.eqb_spec (Level l) "").
Qed.

End ParseFacts.

Lemma Parse_result_defaulted_witness :
  exists c',
    configload.Parse Demo.yamlUnmarshal "bare" = Ok (Some c', None)
    /\ configload.Port (configload.cfgServer c') <> 0%Z.
Proof.
  eexists. split; [reflexivity|].
  eapply (Parse_result_defaulted Demo.yamlUnmarshal "bare"). reflexivity.
Defined.

(** The document that is null: [Parse] panics. *)
Example Parse_null_document :
  configload.Parse Demo.yamlUnmarshal "~" =
    Panic "invalid memory address or nil pointer dereference".
Proof. reflexivity. Qed.

Lemma Parse_fully_specified_witness :
  configload.Parse Demo.yamlUnmarshal "sample" = Ok (Some Demo.sampleConfig, None).
Proof.
  eapply (Parse_fully_specified Demo.yamlUnmarshal "sample" Demo.sampleConfig);
    try reflexivity; discriminate.
Defined.

(** ** The verifier and its HTTP adapter *)

Section AdapterFacts.
Context {Token Key : Type}.
Variable jwtParse : string -> Key -> option Token * option string.
Implicit Types (authenticator : auth.JWTAuthenticator Key).
Local Abbreviation Authenticate := (auth.Authenticate (Token := Token)).

(** Every result of [Authenticate] is well formed: it reports success exactly
    when it returns no error, it carries an artifact exactly when it reports
    success, and it has called [jwt.Parse] at most once. *)
Theorem Authenticate_result_wellformed authenticator creds :
  let ret := auth.run jwtParse (Authenticate authenticator creds) in
  (auth.Success ret.1 = true <-> ret.2 = None)
  /\ (is_Some (auth.Artifact ret.1) <-> auth.Success ret.1 = true)
  /\ (length (auth.verified jwtParse (Authenticate authenticator creds)) <= 1)%nat.
Proof.
  intros ret. subst ret. unfold auth.Authenticate.
  destruct (auth.splitToken creds) as [token [err|]]; simpl;
    [|destruct (jwtParse token (auth.key authenticator)) as [[t|] [e|]]; simpl];
    repeat split; try done; try lia; try (by intros [? ?]); try (by eexists).
Qed.

(** A credential with the scheme "bearer" in any mix of upper and lower
    case: exactly the text after the first space is handed to [jwt.Parse];
    when the library accepts it the result is success with the parsed token,
    and otherwise the result is a failure. *)
Theorem Authenticate_bearer_scheme authenticator p0 rest :
  GoStrings.hasByte " " p0 = false ->
  GoStrings.ToLower p0 = "bearer" ->
  let v := (p0 +:+ String " " rest) in
  auth.verified jwtParse (Authenticate authenticator v) = [rest]
  /\ (forall t, jwtParse rest (auth.key authenticator) = (Some t, None) ->
        auth.run jwtParse (Authenticate authenticator v) =
          ({| auth.Success := true; auth.Artifact := Some t |}, None))
  /\ ((forall t, jwtParse rest (auth.key authenticator) <> (Some t, None)) ->
        auth.Success (auth.run jwtParse (Authenticate authenticator v)).1 = false).
Proof.
  intros Hsp Hlow v. subst v. unfold auth.Authenticate.
  rewrite splitToken_two_parts by done. rewrite Hlow. simpl.
  destruct (jwtParse rest (auth.key authenticator)) as [[t|] [e|]]; simpl;
    repeat split; try done; try (by intros ? [= <-]).
  intros H. by destruct (H t).
Qed.

(** The handler of [NewJWTAuthHandler].  Without Authorization header it
    answers failure with the 401 error.  With a header it looks at the first
    value only, never carries an HTTP error, and answers success exactly
    when [splitToken] gives a token without error and the library accepts
    that token. *)
Theorem NewJWTAuthHandler_accepts (k : Key) (r : http.Request) :
  (http.Header r !! "Authorization" = None ->
     auth.NewJWTAuthHandler jwtParse k r = Ok (false, Some httperr.UnAuthorized))
  /\ (forall v rest,
        http.Header r !! "Authorization" = Some (v :: rest) ->
        exists b,
          auth.NewJWTAuthHandler jwtParse k r = Ok (b, None)
          /\ (b = true <->
              exists token t, auth.splitToken v = (token, None)
                              /\ jwtParse token k = (Some t, None))).
Proof.
  unfold auth.NewJWTAuthHandler, auth.newJWTAuthHandler. split.
  - by intros ->.
  - intros v rest ->. simpl.
    unfold auth.authenticate, auth.JWTAuthenticator_Authenticator, auth.Authenticate.
    destruct (auth.splitToken v) as [token [err|]]; simpl.
    + eexists. split; [done|]. split; [done|]. by intros (? & ? & ? & _).
    + destruct (jwtParse token k) as [[t|] [e|]] eqn:Ej; simpl;
        (eexists; split; [done|]); split; try done;
        try (intros (? & ? & [= <-] & ?); congruence).
      intros _. by exists token, t.
Qed.

End AdapterFacts.

Lemma Authenticate_bearer_scheme_witness :
  auth.run Demo.jwtParse
    (auth.Authenticate {| auth.key := "k" |} "BeArEr k.payload") =
  ({| auth.Success := true; auth.Artifact := Some "k.payload" |}, None).
Proof.
  apply (Authenticate_bearer_scheme Demo.jwtParse {| auth.key := "k" |}
           "BeArEr" "k.payload").
  - reflexivity.
  - reflexivity.
  - reflexivity.
Defined.

(** ** The worker pool: registration and quiescence *)

Section PoolMoreFacts.
Context {Token : Type}.
Variable verify : string -> auth.AuthReturn Token.
Variables (numWorkers : nat) (tokens : list string).
Local Abbreviation PoolState := (auth.PoolState (Token := Token)).
Local Abbreviation fire := (auth.fire verify).
Local Abbreviation step := (auth.step verify).
Local Abbreviation Consistent := (auth.Consistent verify numWorkers tokens).
Implicit Types (s : PoolState).

Lemma NoDup_bounded_length (l : list nat) n :
  NoDup l -> (forall x, x ∈ l -> (x < n)%nat) -> (length l <= n)%nat.
Proof.
  intros Hnd Hlt.
  assert (length l <= length (seq 0 n))%nat as H; [|by rewrite length_seq in H].
  apply submseteq_length, NoDup_submseteq; [done|].
  intros x Hx. apply elem_of_seq. specialize (Hlt x Hx). lia.
Qed.

Lemma Consistent_pool_bounded s i :
  Consistent s -> i ∈ auth.workerPool s -> (i < numWorkers)%nat.
Proof.
  intros I Hi. rewrite <- (auth.inv_workers _ _ _ _ I).
  eapply lookup_lt_Some. by apply (auth.inv_pool_select _ _ _ _ I).
Qed.

Lemma Consistent_can_register s i :
  Consistent s -> auth.workers s !! i = Some auth.WRegister ->
  (length (auth.workerPool s) < auth.capacity s)%nat.
Proof.
  intros I Hi. rewrite (auth.inv_capacity _ _ _ _ I).
  assert (length (i :: auth.workerPool s) <= numWorkers)%nat as H; [|simpl in H; lia].
  apply NoDup_bounded_length.
  - apply list.NoDup_cons. split; [|apply (auth.inv_pool_nodup _ _ _ _ I)].
    intros Hin. apply (auth.inv_pool_select _ _ _ _ I) in Hin. congruence.
  - intros x [->|Hx]%elem_of_cons; [|by eapply Consistent_pool_bounded].
    rewrite <- (auth.inv_workers _ _ _ _ I). by eapply lookup_lt_Some.
Qed.

(** In every state the pool can reach, the registration queue holds at most
    [numWorkers] channels, and a worker that is about to register can do so
    at once: the send on the registration channel never blocks. *)
Theorem registration_never_blocks s :
  rtc step (auth.NewPooledJWTAuthenticator numWorkers tokens) s ->
  (length (auth.workerPool s) <= numWorkers)%nat
  /\ forall i, auth.workers s !! i = Some auth.WRegister ->
       exists s', fire (auth.Register i) s = Some s'.
Proof.
  intros Hreach.
  pose proof (Consistent_rtc verify numWorkers tokens _ _
                (Consistent_init verify numWorkers tokens) Hreach) as I.
  split.
  - apply NoDup_bounded_length; [apply (auth.inv_pool_nodup _ _ _ _ I)|].
    intros x Hx. by eapply Consistent_pool_bounded.
  - intros i Hi. simpl. rewrite Hi.
    destruct (decide (length (auth.workerPool s) < auth.capacity s)%nat);
      [by eexists|].
    by pose proof (Consistent_can_register s i I Hi).
Qed.

(** A state the pool can reach and in which no goroutine can move: every
    worker waits for a job and its channel is in the registration queue,
    which holds each of the [numWorkers] channels once; no worker is lost.
    With at least one worker, every call has returned. *)
Theorem quiescent_pool_all_registered s :
  rtc step (auth.NewPooledJWTAuthenticator numWorkers tokens) s ->
  (forall a, fire a s = None) ->
  (forall i w, auth.workers s !! i = Some w ->
     w = auth.WSelect /\ i ∈ auth.workerPool s)
  /\ NoDup (auth.workerPool s)
  /\ length (auth.workerPool s) = numWorkers
  /\ ((1 <= numWorkers)%nat -> forallb auth.returned (auth.callers s) = true).
Proof.
  intros Hreach Hstuck.
  pose proof (Consistent_rtc verify numWorkers tokens _ _
                (Consistent_init verify numWorkers tokens) Hreach) as I.
  assert (forall i w, auth.workers s !! i = Some w ->
            w = auth.WSelect /\ i ∈ auth.workerPool s) as Hall.
  { intros i w Hw. destruct w as [| |c payload|c ret].
    - pose proof (Consistent_can_register s i I Hw) as Hlt.
      specialize (Hstuck (auth.Register i)). simpl in Hstuck. rewrite Hw in Hstuck.
      by destruct (decide (length (auth.workerPool s) < auth.capacity s)%nat).
    - split; [done|].
      destruct (auth.inv_select _ _ _ _ I _ Hw) as [?|(c & token & Hc)]; [done|].
      specialize (Hstuck (auth.Handoff c)). simpl in Hstuck.
      by rewrite Hc, Hw in Hstuck.
    - specialize (Hstuck (auth.Verify i)). simpl in Hstuck. by rewrite Hw in Hstuck.
    - pose proof (auth.inv_holds _ _ _ _ I _ _ _ Hw eq_refl) as Hc.
      specialize (Hstuck (auth.Respond i)). simpl in Hstuck.
      by rewrite Hw, Hc in Hstuck. }
  split; [done|]. split; [apply (auth.inv_pool_nodup _ _ _ _ I)|]. split.
  - apply Nat.le_antisymm.
    + apply NoDup_bounded_length; [apply (auth.inv_pool_nodup _ _ _ _ I)|].
      intros x Hx. by eapply Consistent_pool_bounded.
    + assert (length (seq 0 numWorkers) <= length (auth.workerPool s))%nat as H;
        [|by rewrite length_seq in H].
      apply submseteq_length, NoDup_submseteq; [apply NoDup_seq|].
      intros i Hi%elem_of_seq.
      destruct (lookup_lt_is_Some_2 (auth.workers s) i) as [w Hw].
      { rewrite (auth.inv_workers _ _ _ _ I). lia. }
      by destruct (Hall i w Hw).
  - intros HN. destruct (forallb auth.returned (auth.callers s)) eqn:E; [done|].
    destruct (forallb_false_lookup _ _ E) as (c & st & Hc & Hst).
    destruct (Consistent_progress verify numWorkers tokens s c st I HN Hc Hst)
      as (a & s1 & Ha).
    by rewrite Hstuck in Ha.
Qed.

End PoolMoreFacts.

Lemma registration_never_blocks_witness :
  let s : auth.PoolState (Token := string) :=
    auth.NewPooledJWTAuthenticator 1 Demo.tokens in
  (length (auth.workerPool s) <= 1)%nat
  /\ exists s', auth.fire Demo.verify (auth.Register 0) s = Some s'.
Proof.
  intros s.
  destruct (registration_never_blocks Demo.verify 1 Demo.tokens s) as [Hlen Hreg].
  - apply rtc_refl.
  - split; [exact Hlen|]. apply (Hreg 0%nat). reflexivity.
Defined.

Lemma quiescent_pool_all_registered_witness :
  length (auth.workerPool Demo.quiet) = 1%nat
  /\ forallb auth.returned (auth.callers Demo.quiet) = true.
Proof.
  destruct (quiescent_pool_all_registered Demo.verify 1 Demo.tokens Demo.quiet)
    as (_ & _ & Hlen & Hret).
  - apply (runSchedule_rtc Demo.verify Demo.fullSchedule). reflexivity.
  - intros [i|c|c|i|i];
      repeat (first [reflexivity | destruct i as [|i] | destruct c as [|c]]).
  - split; [exact Hlen|]. apply Hret. apply le_n.
Defined.

(** ** Route compilation and dispatch, continued *)

Section RoutingFacts.
Context {URL : Type}.
Variable urlParse : string -> string + URL.
Local Abbreviation Dispatcher := (gateway.Dispatcher (URL := URL)).
Local Abbreviation Route := (gateway.Route (URL := URL)).
Local Abbreviation StageHandler := (gateway.StageHandler (URL := URL)).
Local Abbreviation Event := (gateway.Event (URL := URL)).
Implicit Types (d : Dispatcher) (h : gateway.Heap) (ep : config.Endpoint).
Implicit Types (rs : gmap string Route) (sh : StageHandler).
Implicit Types (rt : Route) (w : list Event) (r : http.Request).

(** What compiling one endpoint leaves unchanged in the dispatcher. *)
Lemma compile_frame h d ep h' d' res :
  (if config.Authenticate ep
   then gateway.newAuthenticatingProxyStageHandler urlParse h d ep
   else gateway.newProxyStageHandler urlParse h d ep) = (h', d', res) ->
  gateway.routes d' = gateway.routes d
  /\ gateway.authHandler d' = gateway.authHandler d
  /\ gateway.proxyConfig d' = gateway.proxyConfig d
  /\ gateway.cbConfig d' = gateway.cbConfig d.
Proof.
  unfold gateway.newAuthenticatingProxyStageHandler, gateway.newProxyStageHandler.
  destruct (config.Authenticate ep), (gateway.authHandler d) eqn:Ea,
    (urlParse (config.URL ep)), (gateway.transports d !! gateway.transName ep);
    simpl; intros [= <- <- <-]; done.
Qed.

Lemma configureLoop_frame eps : forall h d rs h' d' res,
  gateway.configureLoop urlParse h d rs eps = (h', d', res) ->
  gateway.proxyConfig d' = gateway.proxyConfig d
  /\ gateway.cbConfig d' = gateway.cbConfig d.
Proof.
  induction eps as [|ep eps IH]; intros h d rs h' d' res; simpl.
  - by intros [= <- <- <-].
  - destruct (if config.Authenticate ep
              then gateway.newAuthenticatingProxyStageHandler urlParse h d ep
              else gateway.newProxyStageHandler urlParse h d ep)
      as [[h1 d1] [e|sh]] eqn:E;
      apply compile_frame in E as (_ & _ & Hp & Hc).
    + by intros [= <- <- <-].
    + intros Hloop. apply IH in Hloop as [-> ->]. done.
Qed.

Lemma compile_result h d ep :
  match (if config.Authenticate ep
         then gateway.newAuthenticatingProxyStageHandler urlParse h d ep
         else gateway.newProxyStageHandler urlParse h d ep).2 with
  | inr _ => compiles urlParse (gateway.authHandler d) ep
  | inl _ => ~ compiles urlParse (gateway.authHandler d) ep
  end.
Proof.
  unfold compiles, gateway.newAuthenticatingProxyStageHandler,
    gateway.newProxyStageHandler.
  destruct (config.Authenticate ep), (gateway.authHandler d) eqn:Ea,
    (urlParse (config.URL ep)) eqn:Eu,
    (gateway.transports d !! gateway.transName ep); simpl;
    try (split; [by eexists|by eauto]);
    try (intros [[? ?] ?]; congruence).
  all: intros [_ H]; by destruct (H eq_refl).
Qed.

Lemma configureLoop_result eps : forall h d rs,
  match (gateway.configureLoop urlParse h d rs eps).2 with
  | inr _ => Forall (compiles urlParse (gateway.authHandler d)) eps
  | inl _ => ~ Forall (compiles urlParse (gateway.authHandler d)) eps
  end.
Proof.
  induction eps as [|ep eps IH]; intros h d rs; simpl; [done|].
  pose proof (compile_result h d ep) as Hc.
  destruct (if config.Authenticate ep
            then gateway.newAuthenticatingProxyStageHandler urlParse h d ep
            else gateway.newProxyStageHandler urlParse h d ep)
    as [[h1 d1] [e|sh]] eqn:E; simpl in *.
  - intros HF. by apply list.Forall_cons in HF as [? _].
  - apply compile_frame in E as (_ & Hah & _).
    specialize (IH h1 d1
      (<[config.Name ep := {| gateway.Endpoint := config.Copy ep;
                              gateway.RouteStageHandler := sh |}]> rs)).
    rewrite Hah in IH.
    destruct (gateway.configureLoop urlParse h1 d1 _ eps) as [[h2 d2] [e|rs']];
      simpl in *.
    + intros HF. by apply list.Forall_cons in HF as [_ ?].
    + by apply list.Forall_cons.
Qed.


(** The routes [configureRoutes] assigns are keyed by the endpoints' names. *)
Lemma configureLoop_dom eps : forall h d rs h' d' rs' k,
  gateway.configureLoop urlParse h d rs eps = (h', d', inr rs') ->
  is_Some (rs' !! k) <-> is_Some (rs !! k) \/ k ∈ (config.Name <$> eps).
Proof.
  induction eps as [|ep eps IH]; intros h d rs h' d' rs' k; simpl.
  - intros [= <- <- <-]. split; [by left|].
    intros [H|H]; [done|]. by apply elem_of_nil in H.
  - destruct (if config.Authenticate ep
              then gateway.newAuthenticatingProxyStageHandler urlParse h d ep
              else gateway.newProxyStageHandler urlParse h d ep)
      as [[h1 d1] [e|sh]] eqn:E; [done|].
    intros Hloop. rewrite (IH _ _ _ _ _ _ k Hloop).
    rewrite lookup_insert_is_Some, elem_of_cons.
    destruct (decide (config.Name ep = k)) as [->|Hne].
    + split; intros _; [by right; left|by left; left].
    + split.
      * intros [[?|[_ ?]]|?]; [done|by left|by right; right].
      * intros [?|[?|?]]; [by left; right|congruence|by right].
Qed.

Lemma compile_target h d ep h' d' sh :
  (if config.Authenticate ep
   then gateway.newAuthenticatingProxyStageHandler urlParse h d ep
   else gateway.newProxyStageHandler urlParse h d ep) = (h', d', inr sh) ->
  exists proxyUrl l,
    urlParse (config.URL ep) = inr proxyUrl
    /\ gateway.transports d' !! gateway.transName ep = Some l
    /\ chainProxy sh =
         Some {| gateway.Target := proxyUrl; gateway.rpTransport := Some l |}
    /\ gateway.transports d ⊆ gateway.transports d'.
Proof.
  assert (forall sh0,
    gateway.newProxyStageHandler urlParse h d ep = (h', d', inr sh0) ->
    exists proxyUrl l,
      urlParse (config.URL ep) = inr proxyUrl
      /\ gateway.transports d' !! gateway.transName ep = Some l
      /\ sh0 = gateway.Stage
                 (gateway.ProxyExec {| gateway.Target := proxyUrl;
                                       gateway.rpTransport := Some l |}) None
      /\ gateway.transports d ⊆ gateway.transports d') as Hproxy.
  { intros sh0 E.
    apply newProxyStageHandler_ok in E as (u & l & Hu & -> & Hl & _ & Hcase).
    exists u, l. repeat split; try done.
    destruct Hcase as [(_ & _ & ->)|(Hn & _ & _ & ->)]; [done|].
    by apply insert_subseteq. }
  destruct (config.Authenticate ep).
  - unfold gateway.newAuthenticatingProxyStageHandler.
    destruct (gateway.authHandler d) as [a|]; [|done].
    destruct (gateway.newProxyStageHandler urlParse h d ep)
      as [[h1 d1] [e|proxySh]] eqn:E; [done|].
    intros [= <- <- <-].
    destruct (Hproxy proxySh eq_refl) as (u & l & Hu & Hl & -> & Hsub).
    by exists u, l.
  - intros E. destruct (Hproxy sh E) as (u & l & Hu & Hl & -> & Hsub).
    by exists u, l.
Qed.

Lemma configureLoop_targets eps : forall h d rs h' d' rs',
  targetsOk urlParse (gateway.transports d) rs ->
  gateway.configureLoop urlParse h d rs eps = (h', d', inr rs') ->
  targetsOk urlParse (gateway.transports d') rs'.
Proof.
  induction eps as [|ep eps IH]; intros h d rs h' d' rs' Hr; simpl.
  - by intros [= <- <- <-].
  - destruct (if config.Authenticate ep
              then gateway.newAuthenticatingProxyStageHandler urlParse h d ep
              else gateway.newProxyStageHandler urlParse h d ep)
      as [[h1 d1] [e|sh]] eqn:E; [done|].
    apply compile_target in E as (u & l & Hu & Hl & Hsh & Hsub).
    apply IH. intros k rt.
    destruct (decide (config.Name ep = k)) as [<-|Hne].
    + rewrite lookup_insert_eq. intros [= <-]. simpl. rewrite Copy_id.
      by exists u, l.
    + rewrite lookup_insert_ne by done. intros Hk.
      destruct (Hr k rt Hk) as (u' & l' & Hu' & Hl' & Hsh').
      exists u', l'. repeat split; try done. by eapply lookup_weaken.
Qed.

(** A route table [Build] has assigned comes from a run of the loop that
    ended without an error. *)
Lemma Build_routes (b : gateway.DispatcherBuilder) rs :
  gateway.routes (gateway.dispatcher b) = None ->
  gateway.routes (gateway.Build urlParse b).2 = Some rs ->
  exists h' d',
    gateway.configureLoop urlParse []
      (gateway.setTransports (gateway.dispatcher b) ∅) ∅ (gateway.endpoints b)
      = (h', d', inr rs)
    /\ gateway.Build urlParse b = (h', gateway.setRoutes d' rs).
Proof.
  intros Hnil. unfold gateway.Build, gateway.configureRoutes.
  destruct (gateway.configureLoop urlParse [] _ ∅ (gateway.endpoints b))
    as [[h1 d1] [e|rs1]] eqn:E; simpl.
  - apply configureLoop_routes in E as [Hr _]. simpl in Hr. congruence.
  - intros [= <-]. by exists h1, d1.
Qed.

(** The route of a listed endpoint after a successful [Build]. *)
Lemma Build_route_for (b : gateway.DispatcherBuilder) rs ep :
  gateway.routes (gateway.dispatcher b) = None ->
  gateway.routes (gateway.Build urlParse b).2 = Some rs ->
  NoDup (config.Name <$> gateway.endpoints b) ->
  ep ∈ gateway.endpoints b ->
  exists rt proxyUrl l,
    rs !! config.Name ep = Some rt
    /\ gateway.Endpoint rt = ep
    /\ gateway.compiledRoute (gateway.authHandler (gateway.dispatcher b)) rt
    /\ urlParse (config.URL ep) = inr proxyUrl
    /\ gateway.transports (gateway.Build urlParse b).2 !! gateway.transName ep
         = Some l
    /\ chainProxy (gateway.RouteStageHandler rt) =
         Some {| gateway.Target := proxyUrl; gateway.rpTransport := Some l |}.
Proof.
  intros Hnil Hrs Hnd Hin.
  destruct (Build_routes b rs Hnil Hrs) as (h' & d' & Hloop & HB).
  destruct (configureLoop_routed urlParse _ _ _ _ _ _ _ ep Hloop Hnd Hin)
    as (rt & Hrt & Hep).
  pose proof (Build_inv urlParse b _ _ HB) as (_ & Hah & Hinv).
  destruct (Hinv Hnil rs) as [_ Hshape]; [done|].
  apply (configureLoop_targets _ _ _ _ _ _ _) in Hloop as Ht;
    [|intros k rt0; by rewrite lookup_empty].
  destruct (Ht _ _ Hrt) as (u & l & Hu & Hl & Hsh).
  exists rt, u, l. rewrite Hep in Hu, Hl. rewrite HB. simpl.
  repeat split; try done.
  rewrite <- Hah. by apply (Hshape _ _ Hrt).
Qed.

(** [configureRoutes] returns no error exactly when every endpoint compiles:
    its URL parses and, if it asks for authentication, an auth handler is
    set.  When it returns no error the route table is assigned and holds a
    route under a key exactly for the names of the endpoints. *)
Theorem configureRoutes_succeeds_iff h d eps :
  ((gateway.configureRoutes urlParse h d eps).2 = None
   <-> Forall (compiles urlParse (gateway.authHandler d)) eps)
  /\ ((gateway.configureRoutes urlParse h d eps).2 = None ->
      exists rs,
        gateway.routes (gateway.configureRoutes urlParse h d eps).1.2 = Some rs
        /\ forall k, is_Some (rs !! k) <-> k ∈ (config.Name <$> eps)).
Proof.
  pose proof (configureLoop_result eps h d ∅) as Hres.
  unfold gateway.configureRoutes.
  destruct (gateway.configureLoop urlParse h d ∅ eps) as [[h1 d1] [e|rs]] eqn:E;
    simpl in *.
  - split; [|done]. split; [done|]. intros HF. by destruct Hres.
  - split; [done|]. intros _. exists rs. split; [done|]. intros k.
    rewrite (configureLoop_dom _ _ _ _ _ _ _ k E), lookup_empty.
    split; [|by right]. intros [H|H]; [|done]. by destruct H.
Qed.

(** After a [Build] that assigned the routes, a request whose second path
    segment is the name of a listed endpoint without authentication is
    answered by one call of [ServeHTTP] on the reverse proxy for that
    endpoint's parsed URL, over the transport kept under the endpoint's
    transport name; nothing else is written. *)
Theorem request_routed_by_name (b : gateway.DispatcherBuilder) rs ep fuel w r :
  gateway.routes (gateway.dispatcher b) = None ->
  gateway.routes (gateway.Build urlParse b).2 = Some rs ->
  NoDup (config.Name <$> gateway.endpoints b) ->
  ep ∈ gateway.endpoints b ->
  config.Authenticate ep = false ->
  GoStrings.Split "/" (http.Path r) !! 1%nat = Some (config.Name ep) ->
  exists proxyUrl l,
    urlParse (config.URL ep) = inr proxyUrl
    /\ gateway.transports (gateway.Build urlParse b).2 !! gateway.transName ep
         = Some l
    /\ gateway.Dispatch (S fuel) (gateway.Build urlParse b).2 w r =
         gateway.Returns
           (w ++ [gateway.EvServeHTTP
                    {| gateway.Target := proxyUrl;
                       gateway.rpTransport := Some l |} r]).
Proof.
  intros Hnil Hrs Hnd Hin Hauth Hkey.
  destruct (Build_route_for b rs ep Hnil Hrs Hnd Hin)
    as (rt & u & l & Hrt & Hep & [p Hshape] & Hu & Hl & Hp).
  exists u, l. split; [done|]. split; [done|].
  rewrite (Dispatch_lookup _ _ _ _ _ Hkey), Hrs. simpl. rewrite Hrt.
  rewrite Hep, Hauth in Hshape. rewrite Hshape in Hp |- *.
  simpl in Hp. injection Hp as ->. reflexivity.
Qed.

(** After a [Build] that assigned the routes, a request for a listed
    endpoint that asks for authentication first goes to the auth handler.
    When the handler accepts, the request is then served by the reverse
    proxy of that endpoint; when the handler panics, so does [Dispatch], and
    no backend is reached. *)
Theorem authenticated_request_routed (b : gateway.DispatcherBuilder) rs ep fuel w r :
  gateway.routes (gateway.dispatcher b) = None ->
  gateway.routes (gateway.Build urlParse b).2 = Some rs ->
  NoDup (config.Name <$> gateway.endpoints b) ->
  ep ∈ gateway.endpoints b ->
  config.Authenticate ep = true ->
  GoStrings.Split "/" (http.Path r) !! 1%nat = Some (config.Name ep) ->
  exists a proxyUrl l,
    gateway.authHandler (gateway.dispatcher b) = Some a
    /\ urlParse (config.URL ep) = inr proxyUrl
    /\ gateway.transports (gateway.Build urlParse b).2 !! gateway.transName ep
         = Some l
    /\ (forall e, a r = Ok (true, e) ->
          gateway.Dispatch (S (S fuel)) (gateway.Build urlParse b).2 w r =
            gateway.Returns
              (w ++ [gateway.EvAuthHandler r;
                     gateway.EvServeHTTP
                       {| gateway.Target := proxyUrl;
                          gateway.rpTransport := Some l |} r]))
    /\ (forall m, a r = Panic m ->
          gateway.Dispatch (S (S fuel)) (gateway.Build urlParse b).2 w r =
            gateway.Panics m (w ++ [gateway.EvAuthHandler r])).
Proof.
  intros Hnil Hrs Hnd Hin Hauth Hkey.
  destruct (Build_route_for b rs ep Hnil Hrs Hnd Hin)
    as (rt & u & l & Hrt & Hep & [p Hshape] & Hu & Hl & Hp).
  rewrite Hep, Hauth in Hshape. destruct Hshape as (a & Ha & Hsh).
  rewrite Hsh in Hp. simpl in Hp. injection Hp as ->.
  exists a, u, l. repeat split; try done.
  - intros e He.
    rewrite (Dispatch_lookup _ _ _ _ _ Hkey), Hrs. simpl. rewrite Hrt, Hsh.
    simpl. rewrite He. simpl. by rewrite <- app_assoc.
  - intros m Hm.
    rewrite (Dispatch_lookup _ _ _ _ _ Hkey), Hrs. simpl. rewrite Hrt, Hsh.
    simpl. by rewrite Hm.
Qed.

(** A request whose second path segment is not the name of a listed
    endpoint gets the 404 answer from a dispatcher made by [Build], whether
    or not the routes could be compiled. *)
Theorem unlisted_name_gets_404 (b : gateway.DispatcherBuilder) key fuel w r :
  gateway.routes (gateway.dispatcher b) = None ->
  GoStrings.Split "/" (http.Path r) !! 1%nat = Some key ->
  key ∉ (config.Name <$> gateway.endpoints b) ->
  gateway.Dispatch fuel (gateway.Build urlParse b).2 w r =
    gateway.Returns
      (w ++ [gateway.EvWriteHeader 404; gateway.EvWrite "not found: 404"]).
Proof.
  intros Hnil Hkey Hnin.
  rewrite (Dispatch_lookup _ _ _ _ _ Hkey).
  destruct (gateway.routes (gateway.Build urlParse b).2) as [rs|] eqn:Hrs;
    simpl; [|done].
  destruct (Build_routes b rs Hnil Hrs) as (h' & d' & Hloop & _).
  destruct (rs !! key) as [rt|] eqn:Hk; [|done].
  exfalso. apply Hnin.
  apply (configureLoop_dom _ _ _ _ _ _ _ key) in Hloop.
  destruct Hloop as [Hdom _]. destruct Hdom as [H|H]; [by eexists| |done].
  rewrite lookup_empty in H. by destruct H.
Qed.

End RoutingFacts.

(** ** What [Build] allocates *)

Section BuildFacts.
Context {URL : Type}.
Variable urlParse : string -> string + URL.
Local Abbreviation Dispatcher := (gateway.Dispatcher (URL := URL)).
Local Abbreviation Route := (gateway.Route (URL := URL)).
Local Abbreviation StageHandler := (gateway.StageHandler (URL := URL)).
Local Abbreviation Event := (gateway.Event (URL := URL)).
Implicit Types (d : Dispatcher) (h : gateway.Heap) (ep : config.Endpoint).
Implicit Types (rs : gmap string Route) (sh : StageHandler).
Implicit Types (rt : Route) (w : list Event) (r : http.Request).

Lemma configureLoop_cells all eps : forall pre h d rs h' d' res,
  all = pre ++ eps ->
  (forall ep', ep' ∈ pre ->
     is_Some (gateway.transports d !! gateway.transName ep')) ->
  cellsOk all h d ->
  gateway.configureLoop urlParse h d rs eps = (h', d', res) ->
  cellsOk all h' d'.
Proof.
  induction eps as [|ep eps IH]; intros pre h d rs h' d' res Hall Hpre Hc; simpl.
  - by intros [= <- <- <-].
  - destruct (if config.Authenticate ep
              then gateway.newAuthenticatingProxyStageHandler urlParse h d ep
              else gateway.newProxyStageHandler urlParse h d ep)
      as [[h1 d1] [e|sh]] eqn:E.
    + apply compile_err in E as [-> ->]. by intros [= <- <- <-].
    + pose proof (compile_frame urlParse _ _ _ _ _ _ E) as (_ & _ & Hpc & Hcc).
      apply compile_ok in E as (l & _ & _ & Hl & _ & Hcase).
      apply (IH (pre ++ [ep])).
      * by rewrite <- app_assoc.
      * intros ep' [Hin|Hin]%elem_of_app.
        -- destruct Hcase as [(_ & _ & ->)|(_ & _ & _ & ->)]; [by apply Hpre|].
           destruct (decide (gateway.transName ep = gateway.transName ep'))
             as [->|Hne]; [by rewrite lookup_insert_eq|].
           rewrite lookup_insert_ne by done. by apply Hpre.
        -- apply list_elem_of_singleton in Hin as ->. by eexists.
      * intros l0 cell Hcell. rewrite Hpc, Hcc.
        destruct Hcase as [(_ & -> & Ht)|(Hn & -> & -> & Ht)].
        -- rewrite Ht. by apply Hc.
        -- rewrite Ht. apply lookup_app_Some in Hcell as [Hold|[Hle Hnew]].
           ++ destruct (Hc _ _ Hold) as (i0 & ep0 & Hfirst & -> & Hl0).
              exists i0, ep0. repeat split; try done; try apply Hfirst.
              rewrite lookup_insert_ne; [done|]. intros Heq.
              rewrite <- Heq in Hl0.
              cut (@None gateway.loc = Some l0); [done|].
              transitivity (gateway.transports d !! gateway.transName ep);
                [symmetry; exact Hn|exact Hl0].
           ++ apply list_lookup_singleton_Some in Hnew as [Hz <-].
              exists (length pre), ep. repeat split.
              ** rewrite Hall. by rewrite list_lookup_middle.
              ** intros j ep' Hj Hlook Heq.
                 rewrite Hall, lookup_app_l in Hlook by done.
                 destruct (Hpre ep') as [l' Hl'].
                 { by eapply list_elem_of_lookup_2. }
                 rewrite Heq in Hl'.
                 cut (@None gateway.loc = Some l'); [done|].
                 transitivity (gateway.transports d !! gateway.transName ep);
                   [symmetry; exact Hn|exact Hl'].
              ** rewrite lookup_insert_eq. f_equal. lia.
Qed.

(** Two dispatchers that agree on the auth handler, on the transports map
    and on the transport they would make for any name compile the same
    endpoints to the same heap, result and transports map. *)
Lemma configureLoop_lockstep eps : forall h (d1 d2 : Dispatcher) rs,
  gateway.authHandler d1 = gateway.authHandler d2 ->
  gateway.transports d1 = gateway.transports d2 ->
  (forall n,
     gateway.newCbTransport n (gateway.proxyConfig d1) (gateway.cbConfig d1) =
     gateway.newCbTransport n (gateway.proxyConfig d2) (gateway.cbConfig d2)) ->
  (gateway.configureLoop urlParse h d1 rs eps).1.1 =
    (gateway.configureLoop urlParse h d2 rs eps).1.1
  /\ (gateway.configureLoop urlParse h d1 rs eps).2 =
       (gateway.configureLoop urlParse h d2 rs eps).2
  /\ gateway.transports (gateway.configureLoop urlParse h d1 rs eps).1.2 =
       gateway.transports (gateway.configureLoop urlParse h d2 rs eps).1.2.
Proof.
  induction eps as [|ep eps IH]; intros h d1 d2 rs Hah Ht Hc; simpl; [done|].
  unfold gateway.newAuthenticatingProxyStageHandler, gateway.newProxyStageHandler.
  rewrite <- Hah, <- Ht.
  destruct (config.Authenticate ep), (gateway.authHandler d1) eqn:Ea,
    (urlParse (config.URL ep)),
    (gateway.transports d1 !! gateway.transName ep) eqn:El;
    simpl; try done; rewrite <- ?Hc, ?lookup_insert_eq;
    apply IH; simpl; first [done|congruence].
Qed.

(** Every transport [Build] allocates was made by [newCbTransport] from the
    builder's two configurations and the name of the first listed endpoint
    that has its transport name, and is kept in the transports map under
    that transport name.  So the breaker of a shared transport carries the
    name of whichever endpoint asked for it first. *)
Theorem Build_transports_from_config (b : gateway.DispatcherBuilder) l cell :
  (gateway.Build urlParse b).1 !! l = Some cell ->
  exists i ep,
    firstWithName (gateway.endpoints b) i ep
    /\ cell = gateway.newCbTransport (config.Name ep)
                (gateway.proxyConfig (gateway.dispatcher b))
                (gateway.cbConfig (gateway.dispatcher b))
    /\ gateway.transports (gateway.Build urlParse b).2 !! gateway.transName ep
         = Some l.
Proof.
  unfold gateway.Build, gateway.configureRoutes.
  destruct (gateway.configureLoop urlParse [] _ ∅ (gateway.endpoints b))
    as [[h1 d1] res] eqn:E.
  pose proof (configureLoop_frame urlParse _ _ _ _ _ _ _ E) as [Hpc Hcc].
  apply (configureLoop_cells (gateway.endpoints b) _ []) in E.
  - intros Hcell.
    assert (h1 !! l = Some cell) as Hl by (by destruct res).
    destruct (E _ _ Hl) as (i & ep & Hfirst & -> & Ht).
    exists i, ep. split; [done|]. rewrite Hpc, Hcc. split; [done|].
    by destruct res.
  - done.
  - intros ep' Hin. by apply elem_of_nil in Hin.
  - intros l0 cell0 H0. by destruct l0.
Qed.

(** Nothing [Build] makes depends on the settings [maxIdleConnsPerHost] and
    [responseHeaderTimeoutMs] of the proxy or on [failuresToOpen] of the
    circuit breaker: with any other values for the three, the heap of
    transports, the route table and the transports map are the same. *)
Theorem Build_ignores_unused_settings (b : gateway.DispatcherBuilder)
    (pc : config.Proxy) (cb : config.CircuitBreaker)
    (perHost respTimeout failures : Z) :
  let pc' :=
    {| config.MaxIdleConns := config.MaxIdleConns pc;
       config.MaxIdleConnsPerHost := perHost;
       config.IdleConnTimeoutMs := config.IdleConnTimeoutMs pc;
       config.TLSHandshakeTimeoutMs := config.TLSHandshakeTimeoutMs pc;
       config.ExpectContinueTimeoutMs := config.ExpectContinueTimeoutMs pc;
       config.DialTimeoutMs := config.DialTimeoutMs pc;
       config.DialKeepAliveMs := config.DialKeepAliveMs pc;
       config.ResponseHeaderTimeoutMs := respTimeout |} in
  let cb' :=
    {| config.MaxHalfOpenRequests := config.MaxHalfOpenRequests cb;
       config.ClearFailureCountIntervalMs := config.ClearFailureCountIntervalMs cb;
       config.HalfOpenAfterMs := config.HalfOpenAfterMs cb;
       config.FailuresToOpen := failures |} in
  let built :=
    gateway.Build urlParse
      (gateway.CircuitBreakerConfig (gateway.ProxyConfig b pc) (Some cb)) in
  let built' :=
    gateway.Build urlParse
      (gateway.CircuitBreakerConfig (gateway.ProxyConfig b pc') (Some cb')) in
  built.1 = built'.1
  /\ gateway.routes built.2 = gateway.routes built'.2
  /\ gateway.transports built.2 = gateway.transports built'.2.
Proof.
  intros pc' cb' built built'. subst built built'.
  unfold gateway.Build, gateway.configureRoutes.
  cbn [gateway.endpoints gateway.dispatcher gateway.CircuitBreakerConfig
       gateway.ProxyConfig].
  match goal with
  | |- context [gateway.configureLoop urlParse [] ?x ∅ ?eps] =>
      set (d1 := x); set (l := eps)
  end.
  match goal with
  | |- context [gateway.configureLoop urlParse [] ?x ∅ l] =>
      lazymatch x with d1 => fail | _ => set (d2 := x) end
  end.
  destruct (configureLoop_lockstep l [] d1 d2 ∅) as (Hh & Hres & Ht);
    [done|done|done|].
  pose proof (configureLoop_routes urlParse [] d1 ∅ l) as H1.
  pose proof (configureLoop_routes urlParse [] d2 ∅ l) as H2.
  destruct (gateway.configureLoop urlParse [] d1 ∅ l) as [[h1 e1] res1].
  destruct (gateway.configureLoop urlParse [] d2 ∅ l) as [[h2 e2] res2].
  destruct (H1 _ _ _ eq_refl) as [Hr1 _].
  destruct (H2 _ _ _ eq_refl) as [Hr2 _].
  simpl in Hh, Hres, Ht. subst h2 res2.
  destruct res1 as [e|rs]; simpl; repeat split; try done.
  by rewrite Hr1, Hr2.
Qed.

End BuildFacts.

(** ** Stage chains, continued *)

Section ChainFacts.
Context {URL : Type}.
Local Abbreviation Route := (gateway.Route (URL := URL)).
Local Abbreviation StageHandler := (gateway.StageHandler (URL := URL)).
Local Abbreviation Event := (gateway.Event (URL := URL)).
Implicit Types (rt : Route) (sh : StageHandler) (w : list Event) (r : http.Request).

(** [StageHandler.Execute] runs a chain of any length by the contract: the
    stages are called front to back, a stage that returns false or panics
    ends the run, and after the last stage the run has ended. *)
Theorem Execute_follows_contract sh w r :
  match gateway.Execute sh w r with
  | (Ok _, w') => gateway.Returns w'
  | (Panic m, w') => gateway.Panics m w'
  end = gateway.specWalk (gateway.stages sh) w r.
Proof. symmetry. apply Execute_specWalk. Qed.

Lemma stageLoop_second_stage rt e1 s2 r :
  gateway.RouteStageHandler rt = gateway.Stage e1 (Some s2) ->
  (forall w0, exists w1,
     gateway.call (gateway.StageExecHandler s2) w0 r = (Ok true, w1)) ->
  forall fuel w,
    gateway.stageLoop fuel rt (Some s2) w r = gateway.Running.
Proof.
  intros Hsh Hpass. induction fuel as [|fuel IH]; intros w; [done|].
  destruct (Hpass w) as [w1 Hw1]. simpl. rewrite Hw1, Hsh. simpl. apply IH.
Qed.

(** The loop of [Dispatch] goes back to the second stage of the route's
    chain after every stage that returns true.  So on a chain whose first
    stage returns true and whose second stage returns true on every call,
    the loop never ends, however many rounds it is given; that the chain has
    no third stage, or has one, makes no difference. *)
Theorem stage_loop_never_ends rt e1 s2 w w1 r :
  gateway.RouteStageHandler rt = gateway.Stage e1 (Some s2) ->
  gateway.call e1 w r = (Ok true, w1) ->
  (forall w0, exists w1,
     gateway.call (gateway.StageExecHandler s2) w0 r = (Ok true, w1)) ->
  forall fuel,
    gateway.stageLoop fuel rt (Some (gateway.RouteStageHandler rt)) w r
      = gateway.Running.
Proof.
  intros Hsh He1 Hpass [|fuel]; [done|].
  simpl. rewrite Hsh. simpl. rewrite He1.
  by apply (stageLoop_second_stage rt e1 s2 r Hsh Hpass).
Qed.

End ChainFacts.

(** ** The circuit-breaker-protected transport, continued *)

Section BreakerFacts.
Variable send : http.Request -> option http.Response * option string.
Variable failuresToOpen : nat.
Implicit Types (transport : gateway.CbTransport) (request : http.Request).

(** With a breaker, in whatever state, [RoundTrip] never hands a 5xx
    response to its caller: a response it returns is the one the underlying
    transport gave, with a status outside 500..599 and with the underlying
    error, and the breaker was not Open. *)
Theorem RoundTrip_breaker_hides_5xx transport cb request resp e :
  gateway.cbtCircuitBreaker transport = Some cb ->
  (gateway.RoundTrip send failuresToOpen transport request).1 = (Some resp, e) ->
  gateway.is5xx resp = false
  /\ send request = (Some resp, e)
  /\ gobreaker.state cb <> gobreaker.StateOpen.
Proof.
  intros Hcb. unfold gateway.RoundTrip, gobreaker.Execute. rewrite Hcb.
  rewrite guarded_spec.
  destruct (gobreaker.state cb); [| |done];
    destruct (send request) as [[resp'|] [e'|]]; simpl;
    try destruct (gateway.is5xx resp') eqn:E5; simpl;
    intros [= <- <-] || intros [=]; done.
Qed.

End BreakerFacts.

(** ** The further properties on the sample configuration *)

Lemma request_routed_by_name_witness :
  let b := Demo.builder [Demo.service1; Demo.service2; Demo.secure] in
  let r := Demo.request "/service1/items" None in
  exists proxyUrl l,
    Demo.urlParse (config.URL Demo.service1) = inr proxyUrl
    /\ gateway.transports (gateway.Build Demo.urlParse b).2
         !! gateway.transName Demo.service1 = Some l
    /\ gateway.Dispatch 1 (gateway.Build Demo.urlParse b).2 [] r =
         gateway.Returns
           ([] ++ [gateway.EvServeHTTP
                     {| gateway.Target := proxyUrl;
                        gateway.rpTransport := Some l |} r]).
Proof.
  intros b r.
  eapply (request_routed_by_name Demo.urlParse b _ Demo.service1 0 [] r).
  - reflexivity.
  - reflexivity.
  - by apply (bool_decide_unpack _).
  - apply list_elem_of_here.
  - reflexivity.
  - reflexivity.
Defined.

Lemma authenticated_request_routed_witness :
  let b := Demo.builder [Demo.service1; Demo.service2; Demo.secure] in
  let r := Demo.request "/secure/x" (Some "Bearer k.payload") in
  exists a proxyUrl l,
    gateway.authHandler (gateway.dispatcher b) = Some a
    /\ Demo.urlParse (config.URL Demo.secure) = inr proxyUrl
    /\ gateway.transports (gateway.Build Demo.urlParse b).2
         !! gateway.transName Demo.secure = Some l
    /\ (forall e, a r = Ok (true, e) ->
          gateway.Dispatch 2 (gateway.Build Demo.urlParse b).2 [] r =
            gateway.Returns
              ([] ++ [gateway.EvAuthHandler r;
                      gateway.EvServeHTTP
                        {| gateway.Target := proxyUrl;
                           gateway.rpTransport := Some l |} r]))
    /\ (forall m, a r = Panic m ->
          gateway.Dispatch 2 (gateway.Build Demo.urlParse b).2 [] r =
            gateway.Panics m ([] ++ [gateway.EvAuthHandler r])).
Proof.
  intros b r.
  eapply (authenticated_request_routed Demo.urlParse b _ Demo.secure 0 [] r).
  - reflexivity.
  - reflexivity.
  - by apply (bool_decide_unpack _).
  - apply list_elem_of_further, list_elem_of_further, list_elem_of_here.
  - reflexivity.
  - reflexivity.
Defined.

Lemma unlisted_name_gets_404_witness :
  gateway.Dispatch 1
    (gateway.Build Demo.urlParse (Demo.builder [Demo.service1; Demo.service2])).2
    [] (Demo.request "/secure/x" None) =
  gateway.Returns
    ([] ++ [gateway.EvWriteHeader 404; gateway.EvWrite "not found: 404"]).
Proof.
  apply (unlisted_name_gets_404 Demo.urlParse
           (Demo.builder [Demo.service1; Demo.service2]) "secure").
  - reflexivity.
  - reflexivity.
  - by apply (bool_decide_unpack _).
Defined.

(** In the sample configuration [service1] comes first and shares the
    transport of [service2]: the one transport is kept under the name
    service2 and its breaker carries the name of service1. *)
Lemma Build_transports_from_config_witness :
  let b := Demo.builder [Demo.service1; Demo.service2] in
  let cell := gateway.newCbTransport "service1" Demo.zeroProxy
                (Some Demo.breakerConfig) in
  (gateway.Build Demo.urlParse b).1 !! 0%nat = Some cell
  /\ exists i ep,
       firstWithName (gateway.endpoints b) i ep
       /\ cell = gateway.newCbTransport (config.Name ep)
                   (gateway.proxyConfig (gateway.dispatcher b))
                   (gateway.cbConfig (gateway.dispatcher b))
       /\ gateway.transports (gateway.Build Demo.urlParse b).2
            !! gateway.transName ep = Some 0%nat.
Proof.
  intros b cell. split; [reflexivity|].
  apply (Build_transports_from_config Demo.urlParse b 0 cell).
  reflexivity.
Defined.

Lemma stage_loop_never_ends_witness :
  let pass : auth.AuthHandler := fun _ => Ok (true, None) in
  let chain : gateway.StageHandler (URL := string) :=
    gateway.Stage (gateway.AuthExec pass)
      (Some (gateway.Stage (gateway.AuthExec pass) None)) in
  let rt := {| gateway.Endpoint := Demo.secure;
               gateway.RouteStageHandler := chain |} in
  gateway.stageLoop 1000 rt (Some chain) [] (Demo.request "/secure/x" None)
    = gateway.Running.
Proof.
  intros pass chain rt.
  refine (stage_loop_never_ends rt (gateway.AuthExec pass)
            (gateway.Stage (gateway.AuthExec pass) None) []
            [gateway.EvAuthHandler (Demo.request "/secure/x" None)]
            (Demo.request "/secure/x" None) _ _ _ 1000).
  - reflexivity.
  - reflexivity.
  - intros w0. eexists. reflexivity.
Defined.

Lemma RoundTrip_breaker_hides_5xx_witness :
  let send : http.Request -> option http.Response * option string :=
    fun _ => (Some {| http.StatusCode := 200; http.Body := "ok" |}, None) in
  let transport := gateway.newCbTransport "service1" Demo.zeroProxy
                     (Some Demo.breakerConfig) in
  let resp := {| http.StatusCode := 200; http.Body := "ok" |} in
  gateway.is5xx resp = false
  /\ send (Demo.request "/service1/items" None) = (Some resp, None)
  /\ gobreaker.state
       (gobreaker.NewCircuitBreaker
          {| gobreaker.Name := "crctbrkr-service1"; gobreaker.MaxRequests := 1;
             gobreaker.Interval := time.ms 10000;
             gobreaker.Timeout := time.ms 5000 |}) <> gobreaker.StateOpen.
Proof.
  intros send transport resp.
  apply (RoundTrip_breaker_hides_5xx send 10 transport _
           (Demo.request "/service1/items" None) resp None).
  - reflexivity.
  - reflexivity.
Defined.
